(** * jira-mcp: the document walkers and the issue normalizer of [JiraApiService]

    A shallow embedding of [src/services/jira-api.ts]: the Atlassian
    document (ADF) text extractor, the issue-mention extractor with its two
    regular expressions, the issue/comment normalizers and the
    [getIssueWithComments] orchestration with its error handling. *)

From Stdlib Require Import List String Ascii Bool Arith NArith ZArith Lia.
From Stdlib Require Import Numbers.DecimalString Numbers.DecimalN.
Import ListNotations.
Open Scope string_scope.
Open Scope list_scope.

Set Implicit Arguments.

(* ================================================================= *)
(** ** JavaScript values used by the service *)

(** A JS string is truthy exactly when it is not empty. *)
Definition truthy (s : string) : bool :=
  match s with
  | EmptyString => false
  | String _ _ => true
  end.

(** An optional string property: [None] is [undefined]. *)
Definition truthy_opt (o : option string) : bool :=
  match o with
  | Some s => truthy s
  | None => false
  end.

(** [a || b] on optional strings: [b] whenever [a] is falsy. *)
Definition js_or (a b : option string) : option string :=
  if truthy_opt a then a else b.

(** [a || ""]. *)
Definition or_empty (a : option string) : string :=
  match a with
  | Some s => s
  | None => ""
  end.

(** [Array.prototype.join(sep)]. *)
Definition join (sep : string) (l : list string) : string := String.concat sep l.

(** [String.prototype.includes]. *)
Fixpoint includes (s needle : string) : bool :=
  if prefix needle s then true
  else match s with
       | EmptyString => false
       | String _ s' => includes s' needle
       end.

(** [`${n}`] for a non-negative integer. *)
Definition string_of_N (n : N) : string :=
  NilZero.string_of_uint (N.to_uint n).

(* ================================================================= *)
(** ** Regular expressions

    The two literals of [extractIssueMentions] are built from single
    characters, greedy [+] over a character class, sequencing and one
    capture group.  The matcher is the usual backtracking one, written in
    continuation-passing style: the continuation receives the rest of the
    subject and the captures made so far. *)

Module Regex.

Inductive charset : Type :=
| Range (lo hi : ascii)   (* [lo-hi] *)
| Digit.                  (* \d *)

Inductive regex : Type :=
| Chr (c : ascii)
| Plus (cs : charset)
| Seq (r1 r2 : regex)
| Group (r : regex).

Definition between (lo hi c : ascii) : bool :=
  (N_of_ascii lo <=? N_of_ascii c)%N && (N_of_ascii c <=? N_of_ascii hi)%N.

Definition mem (cs : charset) (c : ascii) : bool :=
  match cs with
  | Range lo hi => between lo hi c
  | Digit => between "0" "9" c
  end.

(** The first [n] characters of [s]. *)
Fixpoint take (n : nat) (s : string) : string :=
  match n, s with
  | S n', String c s' => String c (take n' s')
  | _, _ => EmptyString
  end.

(** What was consumed between subject [s] and its suffix [rest]. *)
Definition consumed (s rest : string) : string :=
  take (String.length s - String.length rest) s.

Section Matcher.
Variable A : Type.

(** Greedy [cs+]: take one character of the class, prefer taking more,
    and fall back to continuing from here. *)
Fixpoint plus (cs : charset) (s : string) (k : string -> option A) : option A :=
  match s with
  | EmptyString => None
  | String c s' =>
      if mem cs c then
        match plus cs s' k with
        | Some r => Some r
        | None => k s'
        end
      else None
  end.

Fixpoint run (r : regex) (s : string) (caps : list string)
         (k : string -> list string -> option A) : option A :=
  match r with
  | Chr c =>
      match s with
      | String c' s' => if Ascii.eqb c c' then k s' caps else None
      | EmptyString => None
      end
  | Plus cs => plus cs s (fun rest => k rest caps)
  | Seq r1 r2 => run r1 s caps (fun s1 caps1 => run r2 s1 caps1 k)
  | Group r1 => run r1 s caps (fun rest caps1 => k rest (caps1 ++ [consumed s rest]))
  end.
End Matcher.

(** A successful match: the matched text, the captures and the rest. *)
Record result : Type := mkResult
  { matched : string; captures : list string; rest : string }.

(** Match anchored at the start of [s]. *)
Definition match_here (r : regex) (s : string) : option result :=
  run r s [] (fun rest caps => Some (mkResult (consumed s rest) caps rest)).

(** [RegExp.prototype.exec] without flags: the leftmost match. *)
Fixpoint exec (r : regex) (s : string) : option result :=
  match match_here r s with
  | Some m => Some m
  | None =>
      match s with
      | EmptyString => None
      | String _ s' => exec r s'
      end
  end.

(** The loop behind [String.prototype.match] with the [g] flag: every
    match from left to right, each search resuming where the previous
    match ended (one character further after an empty match). *)
Fixpoint scan (fuel : nat) (r : regex) (s : string) : list string :=
  match fuel with
  | O => []
  | S fuel' =>
      match match_here r s with
      | Some m =>
          if truthy (matched m) then matched m :: scan fuel' r (rest m)
          else matched m :: match s with
                            | EmptyString => []
                            | String _ s' => scan fuel' r s'
                            end
      | None =>
          match s with
          | EmptyString => []
          | String _ s' => scan fuel' r s'
          end
      end
  end.

Definition match_all (r : regex) (s : string) : list string :=
  scan (S (String.length s)) r s.

(** A literal string as a regex; [lit c s] is [c] followed by [s]. *)
Fixpoint lit (c : ascii) (s : string) : regex :=
  match s with
  | EmptyString => Chr c
  | String c' s' => Seq (Chr c) (lit c' s')
  end.

End Regex.

(** [/[A-Z]+-\d+/] *)
Definition issueKeyRe : Regex.regex :=
  Regex.Seq (Regex.Plus (Regex.Range "A" "Z"))
            (Regex.Seq (Regex.Chr "-") (Regex.Plus Regex.Digit)).

(** [/\/browse\/([A-Z]+-\d+)/] *)
Definition browseRe : Regex.regex :=
  Regex.Seq (Regex.lit "/" "browse/") (Regex.Group issueKeyRe).

(** [url.match(/\/browse\/([A-Z]+-\d+)/)], reduced to [match[1]]. *)
Definition matchBrowse (url : string) : option string :=
  match Regex.exec browseRe url with
  | Some m => Some (nth 0 (Regex.captures m) "")
  | None => None
  end.

(** [text.match(/[A-Z]+-\d+/g) || []]. *)
Definition matchKeys (text : string) : list string :=
  Regex.match_all issueKeyRe text.


(* ================================================================= *)
(** ** Atlassian document nodes *)

(** [node.attrs]; only [url] is read. *)
Record attrs : Type := mkAttrs { url : option string }.

(** An ADF node as the walkers read it: [type], [text], [attrs] and the
    [content] children; an absent property is [None]. *)
#[local] Unset Elimination Schemes.
Inductive node : Type :=
  mkNode { ntype : string;
           ntext : option string;
           nattrs : option attrs;
           ncontent : option (list node) }.
#[local] Set Elimination Schemes.

Definition textNode (t : string) : node := mkNode "text" (Some t) None None.
Definition paragraph (cs : list node) : node := mkNode "paragraph" None None (Some cs).
Definition inlineCard (u : string) : node :=
  mkNode "inlineCard" None (Some (mkAttrs (Some u))) None.

(* ================================================================= *)
(** ** Document Text Extractor: [extractTextContent] *)

(** The arrow function that [extractTextContent] maps over [content];
    its call of [this.extractTextContent(node.content)] is the inner
    [join]/[map], since [node.content] is an array whenever it is truthy. *)
Fixpoint textOfNode (n : node) : string :=
  if ntype n =? "text" then or_empty (ntext n)
  else match ncontent n with
       | Some cs => join "" (map textOfNode cs)
       | None => ""
       end.

(** [extractTextContent(content)]; [None] stands for an argument that is
    not an array ([undefined], [null], an object, ...). *)
Definition extractTextContent (content : option (list node)) : string :=
  match content with
  | None => ""
  | Some ns => join "" (map textOfNode ns)
  end.

(* ================================================================= *)
(** ** Mention Extractor: [extractIssueMentions] *)

Inductive mentionType : Type := TMention | TLink.
Inductive mentionSource : Type := Description | Comment.

(** An element of [CleanJiraIssue["relatedIssues"]]. *)
Record mention : Type := mkMention
  { key : string;
    summary : option string;
    type : mentionType;
    relationship : option string;
    source : mentionSource;
    commentId : option string }.

(** The object literal pushed by [processNode]. *)
Definition mkTextMention (src : mentionSource) (cid : option string) (k : string) : mention :=
  mkMention k None TMention None src cid.

Section ProcessNode.
Variables (src : mentionSource) (cid : option string).

(** The [inlineCard] branch of [processNode] on the [mentions] array. *)
Definition pushCard (n : node) (mentions : list mention) : list mention :=
  if ntype n =? "inlineCard" then
    match nattrs n with
    | Some a =>
        match url a with
        | Some u =>
            if truthy u then
              match matchBrowse u with
              | Some k => mentions ++ [mkTextMention src cid k]
              | None => mentions
              end
            else mentions
        | None => mentions
        end
    | None => mentions
    end
  else mentions.

(** The [text] branch: one push per match, in order. *)
Definition pushText (n : node) (mentions : list mention) : list mention :=
  if ntype n =? "text" then
    match ntext n with
    | Some t =>
        if truthy t then
          fold_left (fun ms k => ms ++ [mkTextMention src cid k]) (matchKeys t) mentions
        else mentions
    | None => mentions
    end
  else mentions.

(** [processNode], threading the [mentions] array it pushes to. *)
Fixpoint processNode (n : node) (mentions : list mention) : list mention :=
  let m1 := pushCard n mentions in
  let m2 := pushText n m1 in
  match ncontent n with
  | Some cs => fold_left (fun ms c => processNode c ms) cs m2
  | None => m2
  end.

(** [content.forEach(processNode)] from an empty [mentions]. *)
Definition collectMentions (content : list node) : list mention :=
  fold_left (fun ms c => processNode c ms) content [].
End ProcessNode.

(** A JS [Map] with string keys, as its ordered entry list. *)
Module JsMap.
Section Ops.
Variable V : Type.

(** [Map.prototype.set]: an existing key keeps its position and takes
    the new value; a new key goes last. *)
Fixpoint set (k : string) (v : V) (m : list (string * V)) : list (string * V) :=
  match m with
  | [] => [(k, v)]
  | (k', v') :: m' =>
      if k' =? k then (k', v) :: m' else (k', v') :: set k v m'
  end.

(** [new Map(entries)]. *)
Definition ofEntries (entries : list (string * V)) : list (string * V) :=
  fold_left (fun m kv => set (fst kv) (snd kv) m) entries [].

(** [[...map.values()]]. *)
Definition values (m : list (string * V)) : list V := map snd m.
End Ops.
End JsMap.

(** [extractIssueMentions(content, source, commentId)]. *)
Definition extractIssueMentions (content : list node) (src : mentionSource)
           (cid : option string) : list mention :=
  let mentions := collectMentions src cid content in
  JsMap.values (JsMap.ofEntries (map (fun m => (key m, m)) mentions)).


(* ================================================================= *)
(** ** Thrown errors *)

(** A JS [Error]; only its [message] is ever inspected. *)
Record error : Type := mkError { message : string }.

(** The result of running code that may [throw]. *)
Inductive outcome (A : Type) : Type :=
| Ok (a : A)
| Throw (e : error).
Arguments Ok {A} a.
Arguments Throw {A} e.

Definition bind {A B : Type} (x : outcome A) (f : A -> outcome B) : outcome B :=
  match x with
  | Ok a => f a
  | Throw e => Throw e
  end.

Notation "x <- c ;; k" := (bind c (fun x => k))
  (at level 61, c at next level, right associativity).

(** [array.map(f)] for a callback that may throw: the first throw wins. *)
Fixpoint mapM {A B : Type} (f : A -> outcome B) (l : list A) : outcome (list B) :=
  match l with
  | [] => Ok []
  | a :: l' => b <- f a ;; bs <- mapM f l' ;; Ok (b :: bs)
  end.

(** Reading a property of [undefined]. *)
Definition typeError (prop : string) : error :=
  mkError ("Cannot read properties of undefined (reading '" ++ prop ++ "')").

(* ================================================================= *)
(** ** Raw payloads of the tracker API *)

Record rawRefFields : Type := mkRawRefFields { rf_summary : option string }.

(** A referenced issue (link side, parent, subtask, epic): [id], [key]
    and [fields?.summary]. *)
Record rawIssueRef : Type := mkRawIssueRef
  { r_id : string; r_key : string; r_fields : option rawRefFields }.

Record rawLinkType : Type := mkRawLinkType
  { inward : option string; outward : option string }.

Record rawLink : Type := mkRawLink
  { inwardIssue : option rawIssueRef;
    outwardIssue : option rawIssueRef;
    l_type : rawLinkType }.

(** [description] or a comment [body]: a document with an optional
    [content] array. *)
Record rawDoc : Type := mkRawDoc { d_content : option (list node) }.

Record rawStatus : Type := mkRawStatus { st_name : option string }.

Record rawFields : Type := mkRawFields
  { f_summary : option string;
    f_status : option rawStatus;
    f_created : option string;
    f_updated : option string;
    f_description : option rawDoc;
    f_issuelinks : option (list rawLink);
    f_parent : option rawIssueRef;
    f_customfield_10014 : option string;
    f_subtasks : option (list rawIssueRef) }.

Record rawIssue : Type := mkRawIssue
  { i_id : string; i_key : string; i_fields : option rawFields }.

Record rawAuthor : Type := mkRawAuthor { displayName : option string }.

Record rawComment : Type := mkRawComment
  { c_id : string;
    c_body : option rawDoc;
    c_author : option rawAuthor;
    c_created : string;
    c_updated : string }.

(** The body of [GET .../comment]; [comments] is read unguarded. *)
Record rawComments : Type := mkRawComments { comments_of : option (list rawComment) }.

(* ================================================================= *)
(** ** Normalized records *)

Record issueRef : Type := mkIssueRef
  { ref_id : string; ref_key : string; ref_summary : option string }.

Record CleanComment : Type := mkCleanComment
  { cc_id : string;
    cc_body : string;
    cc_author : option string;
    cc_created : string;
    cc_updated : string;
    mentions : list mention }.

Record CleanJiraIssue : Type := mkCleanJiraIssue
  { id : string;
    ikey : string;
    isummary : option string;
    status : option string;
    created : option string;
    updated : option string;
    description : string;
    relatedIssues : list mention;
    parent : option issueRef;
    epicLink : option issueRef;
    children : option (list issueRef);
    comments : option (list CleanComment) }.

(** [issue.relatedIssues = v] *)
Definition set_relatedIssues (v : list mention) (i : CleanJiraIssue) : CleanJiraIssue :=
  mkCleanJiraIssue (id i) (ikey i) (isummary i) (status i) (created i) (updated i)
    (description i) v (parent i) (epicLink i) (children i) (comments i).

(** [issue.comments = v] *)
Definition set_comments (v : list CleanComment) (i : CleanJiraIssue) : CleanJiraIssue :=
  mkCleanJiraIssue (id i) (ikey i) (isummary i) (status i) (created i) (updated i)
    (description i) (relatedIssues i) (parent i) (epicLink i) (children i) (Some v).

(** [issue.epicLink.summary = v], for an issue that has an [epicLink]. *)
Definition set_epicSummary (v : option string) (i : CleanJiraIssue) : CleanJiraIssue :=
  mkCleanJiraIssue (id i) (ikey i) (isummary i) (status i) (created i) (updated i)
    (description i) (relatedIssues i) (parent i)
    (option_map (fun e => mkIssueRef (ref_id e) (ref_key e) v) (epicLink i))
    (children i) (comments i).

(** [x?.p] chained through optional records. *)
Definition opt_bind {A B : Type} (o : option A) (f : A -> option B) : option B :=
  match o with
  | Some a => f a
  | None => None
  end.

(* ================================================================= *)
(** ** Issue Normalizer: [cleanComment] and [cleanIssue] *)

Definition cleanComment (comment : rawComment) : CleanComment :=
  let content := opt_bind (c_body comment) d_content in
  let body := match content with
              | Some c => extractTextContent (Some c)
              | None => ""
              end in
  let mentions := match content with
                  | Some c => extractIssueMentions c Comment (Some (c_id comment))
                  | None => []
                  end in
  mkCleanComment (c_id comment) body (opt_bind (c_author comment) displayName)
    (c_created comment) (c_updated comment) mentions.

(** The callback mapped over [issue.fields.issuelinks]. *)
Definition linkMention (link : rawLink) : outcome mention :=
  let linkedIssue := match inwardIssue link with
                     | Some i => Some i
                     | None => outwardIssue link
                     end in
  let relationship := js_or (inward (l_type link)) (outward (l_type link)) in
  match linkedIssue with
  | Some li =>
      Ok (mkMention (r_key li) (opt_bind (r_fields li) rf_summary) TLink
            relationship Description None)
  | None => Throw (typeError "key")
  end.

Definition refOf (r : rawIssueRef) : issueRef :=
  mkIssueRef (r_id r) (r_key r) (opt_bind (r_fields r) rf_summary).

Definition cleanIssue (issue : rawIssue) : outcome CleanJiraIssue :=
  let fields := i_fields issue in
  let descContent := opt_bind (opt_bind fields f_description) d_content in
  let description := match descContent with
                     | Some c => extractTextContent (Some c)
                     | None => ""
                     end in
  let related0 : list mention :=
    match descContent with
    | Some c =>
        let mentions := extractIssueMentions c Description None in
        if (0 <? List.length mentions)%nat then mentions else []
    | None => []
    end in
  related1 <-
    match opt_bind fields f_issuelinks with
    | Some ((_ :: _) as issuelinks) =>
        links <- mapM linkMention issuelinks ;;
        Ok (related0 ++ links)
    | _ => Ok related0
    end ;;
  let parent :=
    option_map refOf (opt_bind fields f_parent) in
  let epicLink :=
    match opt_bind fields f_customfield_10014 with
    | Some e => if truthy e then Some (mkIssueRef e e None) else None
    | None => None
    end in
  let children :=
    match opt_bind fields f_subtasks with
    | Some ((_ :: _) as subtasks) => Some (map refOf subtasks)
    | _ => None
    end in
  Ok (mkCleanJiraIssue (i_id issue) (i_key issue)
        (opt_bind fields f_summary)
        (opt_bind (opt_bind fields f_status) st_name)
        (opt_bind fields f_created) (opt_bind fields f_updated)
        description related1 parent epicLink children None).

(* ================================================================= *)
(** ** The HTTP collaborator: [handleFetchError] and [fetchJson] *)

(** The JSON body of an error response, as [handleFetchError] reads it. *)
Record errorData : Type := mkErrorData
  { errorMessages : option (list string);
    ed_message : option string;
    errorMessage : option string }.

(** A [Response]: [json] is what [response.json()] resolves to on a
    successful reply, [errorJson] what it resolves to on a failed one;
    [None] when the body is not JSON and [response.json()] rejects. *)
Record response (T : Type) : Type := mkResponse
  { ok : bool;
    http_status : N;
    statusText : string;
    errorJson : option errorData;
    json : option T }.

(** What [fetch] settles to: a rejection or a response. *)
Inductive fetchReply (T : Type) : Type :=
| Rejected (e : error)
| Responded (r : response T).
Arguments Rejected {T} e.
Arguments Responded {T} r.

(** [handleFetchError(response)]: always throws; the result is the error
    thrown.  Logging is not modelled. *)
Definition handleFetchError {T : Type} (r : response T) : error :=
  if negb (ok r) then
    let message :=
      match errorJson r with
      | Some d =>
          match errorMessages d with
          | Some ((_ :: _) as ms) => join "; " ms
          | _ =>
              if truthy_opt (ed_message d) then or_empty (ed_message d)
              else if truthy_opt (errorMessage d) then or_empty (errorMessage d)
              else statusText r
          end
      | None => statusText r
      end in
    let errorMessage := (if truthy message then ": " ++ message else "")%string in
    mkError ("JIRA API Error" ++ errorMessage
             ++ " (Status: " ++ string_of_N (http_status r) ++ ")")
  else mkError "Unknown error occurred during fetch operation.".

Definition syntaxError : error := mkError "Unexpected end of JSON input".

(** [fetchJson<T>(url)], given what the [fetch] of that URL settles to. *)
Definition fetchJson {T : Type} (reply : fetchReply T) : outcome T :=
  match reply with
  | Rejected e => Throw e
  | Responded r =>
      if negb (ok r) then Throw (handleFetchError r)
      else match json r with
           | Some data => Ok data
           | None => Throw syntaxError
           end
  end.

(** [Promise.all([p1, p2])]: fulfilled with both values, or rejected with
    the reason of whichever promise rejects first; [secondFirst] tells
    that the second promise settles before the first. *)
Definition promiseAll {A B : Type} (secondFirst : bool)
           (p1 : outcome A) (p2 : outcome B) : outcome (A * B) :=
  match p1, p2 with
  | Ok a, Ok b => Ok (a, b)
  | Throw e, Ok _ => Throw e
  | Ok _, Throw e => Throw e
  | Throw e1, Throw e2 => if secondFirst then Throw e2 else Throw e1
  end.

(** The tracker as seen by one call of [getIssueWithComments]: the reply
    to each of its requests, by the identifier in the request path, and
    the order in which the two parallel requests settle. *)
Record tracker : Type := mkTracker
  { issueReply : string -> fetchReply rawIssue;        (* /issue/<id>?fields=...&expand=... *)
    commentsReply : string -> fetchReply rawComments;  (* /issue/<id>/comment *)
    epicReply : string -> fetchReply rawIssue;         (* /issue/<key>?fields=summary *)
    commentsSettleFirst : bool }.

(* ================================================================= *)
(** ** [getIssueWithComments] *)

Definition getIssueWithComments (w : tracker) (issueId : string)
  : outcome CleanJiraIssue :=
  match promiseAll (commentsSettleFirst w)
                   (fetchJson (issueReply w issueId))
                   (fetchJson (commentsReply w issueId)) with
  | Throw error =>
      if includes (message error) "(Status: 404)"
      then Throw (mkError ("Issue not found: " ++ issueId))
      else Throw error
  | Ok (issueData, commentsData) =>
      issue <- cleanIssue issueData ;;
      comments <- match comments_of commentsData with
                  | Some cs => Ok (map cleanComment cs)
                  | None => Throw (typeError "map")
                  end ;;
      let commentMentions := flat_map mentions comments in
      let issue := set_relatedIssues (relatedIssues issue ++ commentMentions) issue in
      let issue := set_comments comments issue in
      match epicLink issue with
      | Some epic =>
          match fetchJson (epicReply w (ref_key epic)) with
          | Ok epicData =>
              Ok (set_epicSummary (opt_bind (i_fields epicData) f_summary) issue)
          | Throw _ => Ok issue
          end
      | None => Ok issue
      end
  end.

(* ================================================================= *)
(** ** [createAdfFromBody] *)

Record AdfDoc : Type := mkAdfDoc
  { version : N; doc_type : string; content : list node }.

Definition createAdfFromBody (text : string) : AdfDoc :=
  mkAdfDoc 1 "doc"
    [ mkNode "paragraph" None None
        (Some [ mkNode "text" (Some text) None None ]) ].

(* ================================================================= *)
(** ** [searchIssues] and [getEpicChildren] *)

(** The body of [GET /search]: [total] is passed on as it is, [issues] is
    read unguarded. *)
Record searchData : Type := mkSearchData
  { sd_total : option N; sd_issues : option (list rawIssue) }.

Record SearchIssuesResponse : Type := mkSearchIssuesResponse
  { total : option N; issues : list CleanJiraIssue }.

(** The reply to a search request, by its [jql] and [maxResults]. *)
Definition searchService : Type := string -> N -> fetchReply searchData.

Definition searchIssues (search : searchService) (searchString : string)
  : outcome SearchIssuesResponse :=
  data <- fetchJson (search searchString 50%N) ;;
  match sd_issues data with
  | Some raw =>
      cleaned <- mapM cleanIssue raw ;;
      Ok (mkSearchIssuesResponse (sd_total data) cleaned)
  | None => Throw (typeError "map")
  end.

(** [Promise.all(promises)] on an array: fulfilled with all the values in
    the order of the array, or rejected with the reason of the promise that
    rejects first; [settleTime i] is when promise [i] settles, the lower
    index winning a tie. *)
Fixpoint earliestRejection {A : Type} (settleTime : nat -> nat) (i : nat)
         (l : list (outcome A)) (best : option (nat * error)) : option error :=
  match l with
  | [] => option_map snd best
  | Ok _ :: l' => earliestRejection settleTime (S i) l' best
  | Throw e :: l' =>
      earliestRejection settleTime (S i) l'
        (match best with
         | Some (t, e0) => if (settleTime i <? t)%nat then Some (settleTime i, e)
                           else Some (t, e0)
         | None => Some (settleTime i, e)
         end)
  end.

Definition fulfilled {A : Type} (l : list (outcome A)) : list A :=
  flat_map (fun o => match o with Ok a => [a] | Throw _ => [] end) l.

Definition promiseAllList {A : Type} (settleTime : nat -> nat)
           (l : list (outcome A)) : outcome (list A) :=
  match earliestRejection settleTime 0 l None with
  | Some e => Throw e
  | None => Ok (fulfilled l)
  end.

(** The double quote character. *)
Definition dq : string := String (ascii_of_nat 34) "".

(** [`"Epic Link" = ${epicKey}`] *)
Definition epicJql (epicKey : string) : string :=
  (dq ++ "Epic Link" ++ dq ++ " = " ++ epicKey)%string.

(** The async callback that [getEpicChildren] maps over [data.issues]. *)
Definition childWithComments (commentsOf : string -> fetchReply rawComments)
           (issue : rawIssue) : outcome CleanJiraIssue :=
  commentsData <- fetchJson (commentsOf (i_key issue)) ;;
  cleanedIssue <- cleanIssue issue ;;
  comments <- match comments_of commentsData with
              | Some cs => Ok (map cleanComment cs)
              | None => Throw (typeError "map")
              end ;;
  let commentMentions := flat_map mentions comments in
  let cleanedIssue :=
    set_relatedIssues (relatedIssues cleanedIssue ++ commentMentions) cleanedIssue in
  Ok (set_comments comments cleanedIssue).

Definition getEpicChildren (search : searchService)
           (commentsOf : string -> fetchReply rawComments)
           (settleTime : nat -> nat) (epicKey : string)
  : outcome (list CleanJiraIssue) :=
  data <- fetchJson (search (epicJql epicKey) 100%N) ;;
  match sd_issues data with
  | Some raw => promiseAllList settleTime (map (childWithComments commentsOf) raw)
  | None => Throw (typeError "map")
  end.

(* ================================================================= *)
(** ** The write operations *)

(** A JSON value handed in by the caller. *)
#[local] Unset Elimination Schemes.
Inductive jsonValue : Type :=
| JNull
| JBool (b : bool)
| JNum (z : Z)
| JStr (s : string)
| JArr (items : list jsonValue)
| JObj (props : list (string * jsonValue)).
#[local] Set Elimination Schemes.

(** [o[k]] on an object given by its entries. *)
Fixpoint getProp {V : Type} (k : string) (o : list (string * V)) : option V :=
  match o with
  | [] => None
  | (k', v) :: o' => if k' =? k then Some v else getProp k o'
  end.

(** The [fields] object literal of [createIssue]: the three fixed
    properties, [description] when it is truthy, then the caller's
    [fields]; a property written twice keeps its place and takes the later
    value.  The entries are in order of first writing (the engine lists
    integer-like keys first, which no lookup observes). *)
Definition createIssueFields (projectKey issueType summary : string)
           (description : option string) (fields : list (string * jsonValue))
  : list (string * jsonValue) :=
  JsMap.ofEntries
    ([ ("project", JObj [("key", JStr projectKey)]);
       ("summary", JStr summary);
       ("issuetype", JObj [("name", JStr issueType)]) ]
       ++ (if truthy_opt description then [("description", JStr (or_empty description))]
           else [])
       ++ fields).

(** The value given to [JSON.stringify] for the request body. *)
Inductive payload : Type :=
| CreatePayload (fields : list (string * jsonValue))        (* { fields: {...} } *)
| UpdatePayload (fields : list (string * jsonValue))        (* { fields } *)
| TransitionPayload (transitionId : string) (comment : option AdfDoc)
    (* { transition: { id }, update: { comment: [{ add: { body } }] } } *)
| CommentPayload (body : AdfDoc).                      (* { body } *)

(** A request of [fetchJson(url, init)]: the path after [baseUrl], the
    method and the body. *)
Record request : Type := mkRequest
  { path : string; method : string; body : payload }.

Record createdIssue : Type := mkCreatedIssue { created_id : string; created_key : string }.

Definition createIssue (net : request -> fetchReply createdIssue)
           (projectKey issueType summary : string)
           (description : option string) (fields : list (string * jsonValue))
  : outcome createdIssue :=
  fetchJson (net (mkRequest "/rest/api/3/issue" "POST"
                    (CreatePayload
                       (createIssueFields projectKey issueType summary
                                          description fields)))).



Record AddCommentResponse : Type := mkAddCommentResponse
  { ac_id : string;
    ac_author : option string;
    ac_created : string;
    ac_updated : string;
    ac_body : string }.

(** [addCommentToIssue]; the reply is a comment as the tracker stores it,
    and its [author] and [body] are read unguarded. *)
Definition addCommentToIssue (net : request -> fetchReply rawComment)
           (issueIdOrKey body : string) : outcome AddCommentResponse :=
  let adfBody := createAdfFromBody body in
  response <- fetchJson (net (mkRequest ("/rest/api/3/issue/" ++ issueIdOrKey ++ "/comment")
                                "POST" (CommentPayload adfBody))) ;;
  match c_author response with
  | None => Throw (typeError "displayName")
  | Some author =>
      match c_body response with
      | None => Throw (typeError "content")
      | Some doc =>
          Ok (mkAddCommentResponse (c_id response) (displayName author)
                (c_created response) (c_updated response)
                (extractTextContent (d_content doc)))
      end
  end.

(* ================================================================= *)
(** ** [JiraServerApiService] *)

(** [s.replace(pattern, replacement)] for a string pattern and a
    replacement without [$]: the first occurrence only. *)
Fixpoint dropChars (n : nat) (s : string) : string :=
  match n, s with
  | S n', String _ s' => dropChars n' s'
  | _, _ => s
  end.

Fixpoint replaceFirst (pattern replacement s : string) : string :=
  if prefix pattern s then (replacement ++ dropChars (String.length pattern) s)%string
  else match s with
       | EmptyString => EmptyString
       | String c s' => String c (replaceFirst pattern replacement s')
       end.

Definition overrideApiPath (path : string) : string :=
  replaceFirst "/rest/api/3/" "/rest/api/2/" path.

(** The overriding [fetchJson]: the request goes out on the rewritten
    path. *)
Definition serverFetchJson {T : Type} (net : request -> fetchReply T)
           (req : request) : outcome T :=
  fetchJson (net (mkRequest (overrideApiPath (path req)) (method req) (body req))).

(* ================================================================= *)
(** ** Specification-side definitions *)

(** The text of the "text" leaves below a node, in document order: a node
    with children stands for its children, a childless node for its own
    [text] when its type is "text". *)
Fixpoint leafText (n : node) : string :=
  match ncontent n with
  | Some ((_ :: _) as cs) => join "" (map leafText cs)
  | _ => if ntype n =? "text" then or_empty (ntext n) else ""
  end.

(** The spec's reading of the text of a document: the concatenation of
    the text of its "text" leaves. *)
Definition leafTextOfDoc (ns : list node) : string := join "" (map leafText ns).

(** No node of type "text" below [n] (or [n] itself) has children. *)
Fixpoint textNodesAreLeaves (n : node) : bool :=
  match ncontent n with
  | Some ((_ :: _) as cs) => negb (ntype n =? "text") && forallb textNodesAreLeaves cs
  | _ => true
  end.

(** Some node of the tree rooted at [n] has type "text". *)
Fixpoint hasTextNode (n : node) : bool :=
  (ntype n =? "text")
  || match ncontent n with
     | Some cs => existsb hasTextNode cs
     | None => false
     end.

(** The "text" nodes met when walking depth-first, left to right, without
    entering the children of a "text" node. *)
Fixpoint outerTextNodes (n : node) : list node :=
  if ntype n =? "text" then [n]
  else match ncontent n with
       | Some cs => flat_map outerTextNodes cs
       | None => []
       end.

(** What a node itself contributes to the mention list. *)
Definition ownMentions (src : mentionSource) (cid : option string) (n : node)
  : list mention :=
  pushText src cid n (pushCard src cid n []).

(** All mentions of a tree in traversal order: the node first, then its
    children from left to right. *)
Fixpoint traversalMentions (src : mentionSource) (cid : option string) (n : node)
  : list mention :=
  ownMentions src cid n
  ++ match ncontent n with
     | Some cs => flat_map (traversalMentions src cid) cs
     | None => []
     end.

(** Within one call every mention is the same object literal around its
    key. *)
Definition fromCall (src : mentionSource) (cid : option string) (m : mention) : Prop :=
  m = mkTextMention src cid (key m).

(** Deduplication by key that keeps the first mention of every key:
    [seen] holds the keys already met. *)
Fixpoint dedupFrom (seen : list string) (ms : list mention) : list mention :=
  match ms with
  | [] => []
  | m :: ms' =>
      if existsb (String.eqb (key m)) seen then dedupFrom seen ms'
      else m :: dedupFrom (seen ++ [key m]) ms'
  end.

Definition dedupByKey (ms : list mention) : list mention := dedupFrom [] ms.

(** The longest prefix of [s] whose characters satisfy [p], and the rest. *)
Fixpoint span (p : ascii -> bool) (s : string) : string * string :=
  match s with
  | EmptyString => ("", "")
  | String c s' =>
      if p c then let (a, b) := span p s' in (String c a, b)
      else ("", s)
  end.

(** [s] does not start with a character satisfying [p]. *)
Definition stops (p : ascii -> bool) (s : string) : bool :=
  match s with
  | EmptyString => true
  | String c _ => negb (p c)
  end.

Fixpoint allChars (p : ascii -> bool) (s : string) : bool :=
  match s with
  | EmptyString => true
  | String c s' => p c && allChars p s'
  end.

Definition isUpper : ascii -> bool := Regex.mem (Regex.Range "A" "Z").
Definition isDigit : ascii -> bool := Regex.mem Regex.Digit.

(** An issue key at the start of [s], read without backtracking: the
    longest run of upper-case letters, a dash, the longest run of digits.
    Returns the key and what follows it. *)
Definition keyPrefix (s : string) : option (string * string) :=
  let (letters, r1) := span isUpper s in
  if truthy letters then
    match r1 with
    | String c r2 =>
        if Ascii.eqb "-" c then
          let (digits, r3) := span isDigit r2 in
          if truthy digits then Some ((letters ++ String "-" digits)%string, r3)
          else None
        else None
    | EmptyString => None
    end
  else None.

(** The shape [[A-Z]+-\d+]: the whole of [k] is one key. *)
Definition isIssueKey (k : string) : bool :=
  match keyPrefix k with
  | Some (k', "") => k' =? k
  | _ => false
  end.

(** [s] minus its prefix [p], when it starts with [p]. *)
Fixpoint stripPrefix (p s : string) : option string :=
  match p with
  | EmptyString => Some s
  | String c p' =>
      match s with
      | String c' s' => if Ascii.eqb c c' then stripPrefix p' s' else None
      | EmptyString => None
      end
  end.

(** ["/browse/"] and then an issue key at the start of [s]. *)
Definition browsePrefix (s : string) : option (string * string) :=
  match stripPrefix "/browse/" s with
  | Some r => keyPrefix r
  | None => None
  end.

(** The matches of the issue-key pattern in a text, as a specification:
    [keyMatches s ks] when [ks] are, from left to right, the keys found in
    [s], each starting at the first position after the previous match where
    a key starts, each as long as it can be, and no key starts after the
    last one. *)
Inductive keyMatches : string -> list string -> Prop :=
| km_none : forall s,
    (forall pre post, s = (pre ++ post)%string -> keyPrefix post = None) ->
    keyMatches s []
| km_next : forall before k after ks,
    (forall b1 b2, before = (b1 ++ b2)%string -> b2 <> "" ->
                   keyPrefix (b2 ++ k ++ after) = None) ->
    keyPrefix (k ++ after) = Some (k, after) ->
    keyMatches after ks ->
    keyMatches (before ++ k ++ after) (k :: ks).

(** [browseMatch u k]: the first place of [u] where ["/browse/"] is
    followed by an issue key reads the key [k]. *)
Inductive browseMatch : string -> string -> Prop :=
| bm_first : forall before k after,
    (forall b1 b2, before = (b1 ++ b2)%string -> b2 <> "" ->
                   browsePrefix (b2 ++ "/browse/" ++ k ++ after) = None) ->
    keyPrefix (k ++ after) = Some (k, after) ->
    browseMatch (before ++ "/browse/" ++ k ++ after) k.

(** The entries handed to [new Map(...)] by [extractIssueMentions]. *)
Definition entriesOf (ms : list mention) : list (string * mention) :=
  map (fun m => (key m, m)) ms.

(** The mentions found in the description of a raw issue. *)
Definition descriptionMentions (issue : rawIssue) : list mention :=
  match opt_bind (opt_bind (i_fields issue) f_description) d_content with
  | Some c => extractIssueMentions c Description None
  | None => []
  end.

(** The [issuelinks] of a raw issue, empty when the field is absent. *)
Definition issuelinksOf (issue : rawIssue) : list rawLink :=
  match opt_bind (i_fields issue) f_issuelinks with
  | Some l => l
  | None => []
  end.

(** The relationship the specification expects for a link: the label of
    the populated side. *)
Definition specRelationship (link : rawLink) : option string :=
  match inwardIssue link with
  | Some _ => inward (l_type link)
  | None => outward (l_type link)
  end.

(** No character of [s] is an upper-case letter. *)
Definition noUpper (s : string) : bool := allChars (fun c => negb (isUpper c)) s.

(** A link with at least one of its two sides. *)
Definition hasSide (link : rawLink) : bool :=
  match inwardIssue link, outwardIssue link with
  | None, None => false
  | _, _ => true
  end.



(** The properties that [createIssue] writes before the caller's
    [fields]. *)
Definition builtinFields (projectKey issueType summary : string)
           (description : option string) : list (string * jsonValue) :=
  [ ("project", JObj [("key", JStr projectKey)]);
    ("summary", JStr summary);
    ("issuetype", JObj [("name", JStr issueType)]) ]
    ++ (if truthy_opt description then [("description", JStr (or_empty description))]
        else []).

(** The [message] that [handleFetchError] takes from the reply: the error
    messages of the body joined, else its [message], else its
    [errorMessage], else the status text. *)
Definition upstreamMessage {T : Type} (r : response T) : string :=
  match errorJson r with
  | Some d =>
      match errorMessages d with
      | Some ((_ :: _) as ms) => join "; " ms
      | _ =>
          if truthy_opt (ed_message d) then or_empty (ed_message d)
          else if truthy_opt (errorMessage d) then or_empty (errorMessage d)
          else statusText r
      end
  | None => statusText r
  end.

(** ** Sample documents *)

(** A "text" node that carries a child: the walker returns at the node. *)
Definition nestedText : node :=
  mkNode "text" (Some "a") None (Some [textNode "b"]).

(** A document whose traversal meets PROJ-1, PROJ-2 and PROJ-1 again. *)
Definition repeatedKeyDoc : list node :=
  [ paragraph [ inlineCard "https://x.atlassian.net/browse/PROJ-1";
                textNode "relates to PROJ-2" ];
    paragraph [ textNode "see PROJ-1" ] ].

(** A "text" node whose text and whose child both name an issue. *)
Definition nestedKeyText : node :=
  mkNode "text" (Some "A-1") None (Some [textNode "B-2"]).

(** ** Sample payloads *)

(** An issue that blocks XYZ-9: the link has only its outward side, and
    its type carries both labels, as the tracker sends them. *)
Definition blocksLink : rawLink :=
  mkRawLink None (Some (mkRawIssueRef "10009" "XYZ-9" None))
            (mkRawLinkType (Some "is blocked by") (Some "blocks")).

(** The same link with only the outward label. *)
Definition blocksLinkOutwardOnly : rawLink :=
  mkRawLink None (Some (mkRawIssueRef "10009" "XYZ-9" None))
            (mkRawLinkType None (Some "blocks")).

Definition issueWithLinks (links : list rawLink) : rawIssue :=
  mkRawIssue "10001" "PROJ-1"
    (Some (mkRawFields (Some "A summary") None None None None (Some links)
                       None None None)).

(** An issue whose description names DUP-1, with one comment naming it
    too. *)
Definition dupIssue : rawIssue :=
  mkRawIssue "10001" "PROJ-1"
    (Some (mkRawFields None None None None
             (Some (mkRawDoc (Some [paragraph [textNode "duplicates DUP-1"]])))
             None None None None)).

Definition dupComment : rawComment :=
  mkRawComment "501" (Some (mkRawDoc (Some [paragraph [textNode "see DUP-1"]])))
               None "2024-01-01" "2024-01-02".

Definition okReply {T : Type} (data : T) : fetchReply T :=
  Responded (mkResponse true 200 "OK" None (Some data)).

Definition failedReply {T : Type} (st : N) (text : string) : fetchReply T :=
  Responded (mkResponse false st text None None).

Definition dupTracker : tracker :=
  mkTracker (fun _ => okReply dupIssue)
            (fun _ => okReply (mkRawComments (Some [dupComment])))
            (fun _ => failedReply 404 "Not Found")
            false.

(** The issue is unknown, and the comments request fails first with a
    server error. *)
Definition raceTracker : tracker :=
  mkTracker (fun _ => failedReply 404 "Not Found")
            (fun _ => failedReply 500 "Internal Server Error")
            (fun _ => failedReply 404 "Not Found")
            true.

(** The issue is unknown: both requests are answered 404, the comments
    one first. *)
Definition unknownIssueTracker : tracker :=
  mkTracker (fun _ => failedReply 404 "Not Found")
            (fun _ => failedReply 404 "Not Found")
            (fun _ => failedReply 404 "Not Found")
            true.

(** An issue with an epic link whose epic cannot be fetched. *)
Definition epicIssue : rawIssue :=
  mkRawIssue "10002" "PROJ-2"
    (Some (mkRawFields (Some "Child") None None None None None None
                       (Some "PROJ-100") None)).

Definition epicDownTracker : tracker :=
  mkTracker (fun _ => okReply epicIssue)
            (fun _ => okReply (mkRawComments (Some [dupComment])))
            (fun _ => failedReply 503 "Service Unavailable")
            false.

(** A page of two issues out of 120 matching ones. *)
Definition samplePage : searchData :=
  mkSearchData (Some 120%N) (Some [dupIssue; epicIssue]).

Definition sampleSearch : searchService := fun _ _ => okReply samplePage.

Definition sampleSearchResult : SearchIssuesResponse :=
  Eval vm_compute in
    match searchIssues sampleSearch "project = PROJ" with
    | Ok r => r
    | Throw _ => mkSearchIssuesResponse None []
    end.


Definition commentsOfSample : string -> fetchReply rawComments :=
  fun _ => okReply (mkRawComments (Some [dupComment])).

Definition sampleChildren : list CleanJiraIssue :=
  Eval vm_compute in
    match getEpicChildren sampleSearch commentsOfSample (fun i => 10 - i) "PROJ-100" with
    | Ok l => l
    | Throw _ => []
    end.

(** The first child as [getEpicChildren] lists it. *)
Definition dupChild : CleanJiraIssue :=
  Eval vm_compute in
    nth 0 sampleChildren
        (mkCleanJiraIssue "" "" None None None None "" [] None None None None).


(** A tracker that stores the posted comment and echoes it. *)
Definition echoNet : request -> fetchReply rawComment :=
  fun req =>
    match body req with
    | CommentPayload doc =>
        okReply (mkRawComment "777" (Some (mkRawDoc (Some (content doc))))
                              (Some (mkRawAuthor (Some "Ada")))
                              "2024-05-01" "2024-05-01")
    | _ => failedReply 400 "Bad Request"
    end.

(** The issue request fails with a server error whose body carries two
    messages; the comments are served. *)
Definition serverErrorResponse : response rawIssue :=
  mkResponse false 500 "Internal Server Error"
             (Some (mkErrorData (Some ["Index unavailable"; "Try again (later)"])
                                None None))
             None.

Definition serverErrorTracker : tracker :=
  mkTracker (fun _ => Responded serverErrorResponse)
            (fun _ => okReply (mkRawComments (Some [dupComment])))
            (fun _ => failedReply 404 "Not Found")
            false.

(* ================================================================= *)
(** * Proofs *)

(** ** Strings *)

#[local] Arguments join : simpl never.

Lemma append_nil_r (s : string) : (s ++ "")%string = s.
Proof. induction s as [|c s IH]; simpl; [reflexivity | now rewrite IH]. Qed.

Lemma append_assoc (a b c : string) : ((a ++ b) ++ c = a ++ (b ++ c))%string.
Proof. induction a as [|x a IH]; simpl; [reflexivity | now rewrite IH]. Qed.

Lemma length_append (a b : string) :
  String.length (a ++ b)%string = String.length a + String.length b.
Proof. induction a as [|x a IH]; simpl; [reflexivity | now rewrite IH]. Qed.

Lemma join_cons (x : string) (xs : list string) :
  join "" (x :: xs) = (x ++ join "" xs)%string.
Proof.
  destruct xs as [|y ys]; unfold join; simpl.
  - now rewrite append_nil_r.
  - reflexivity.
Qed.

Lemma join_app (l1 l2 : list string) :
  join "" (l1 ++ l2) = (join "" l1 ++ join "" l2)%string.
Proof.
  induction l1 as [|x l1 IH].
  - reflexivity.
  - rewrite <- app_comm_cons, !join_cons, IH. now rewrite append_assoc.
Qed.

Lemma join_flat_map {A : Type} (f : A -> list string) (l : list A) :
  join "" (flat_map f l) = join "" (map (fun a => join "" (f a)) l).
Proof.
  induction l as [|a l IH]; simpl.
  - reflexivity.
  - now rewrite join_app, join_cons, IH.
Qed.

Lemma join_all_empty (l : list string) :
  Forall (fun s => s = "") l -> join "" l = "".
Proof.
  induction 1 as [|x l Hx _ IH].
  - reflexivity.
  - rewrite join_cons, Hx, IH. reflexivity.
Qed.

(** ** Induction on document trees *)

Lemma node_ind (P : node -> Prop)
      (Hleaf : forall t x a, P (mkNode t x a None))
      (Hnode : forall t x a cs, Forall P cs -> P (mkNode t x a (Some cs))) :
  forall n, P n.
Proof.
  fix IH 1.
  intros [t x a [cs|]].
  - apply Hnode. induction cs as [|c cs IHcs]; constructor; [apply IH | exact IHcs].
  - apply Hleaf.
Qed.

(** ** Document Text Extractor *)

Lemma textOfNode_text (n : node) :
  ntype n = "text" -> textOfNode n = or_empty (ntext n).
Proof. intros H. destruct n as [t x a c]; simpl in *. now rewrite H. Qed.

Lemma textOfNode_container (n : node) (cs : list node) :
  ntype n <> "text" -> ncontent n = Some cs ->
  textOfNode n = extractTextContent (Some cs).
Proof.
  intros Ht Hc. destruct n as [t x a c]; simpl in *.
  apply String.eqb_neq in Ht. now rewrite Ht, Hc.
Qed.

Lemma textOfNode_outer (n : node) :
  textOfNode n = join "" (map (fun m => or_empty (ntext m)) (outerTextNodes n)).
Proof.
  induction n as [t x a|t x a cs IH] using node_ind; simpl;
    destruct (t =? "text") eqn:Et; simpl; try reflexivity.
  induction IH as [|c cs Hc _ IHcs]; simpl.
  - reflexivity.
  - rewrite map_app, join_app, join_cons, <- Hc. now rewrite IHcs.
Qed.

Lemma textOfNode_leafText (n : node) :
  textNodesAreLeaves n = true -> textOfNode n = leafText n.
Proof.
  induction n as [t x a|t x a cs IH] using node_ind; simpl.
  - reflexivity.
  - destruct cs as [|c cs].
    + now destruct (t =? "text").
    + intros H. apply andb_prop in H. destruct H as [Ht Hcs].
      apply negb_true_iff in Ht. rewrite Ht.
      f_equal. apply map_ext_in. intros d Hd.
      rewrite Forall_forall in IH. apply IH; [exact Hd|].
      rewrite forallb_forall in Hcs. now apply Hcs.
Qed.

Lemma textOfNode_no_text (n : node) :
  hasTextNode n = false -> textOfNode n = "".
Proof.
  induction n as [t x a|t x a cs IH] using node_ind; simpl; intros H;
    apply orb_false_elim in H; destruct H as [Ht Hcs]; rewrite Ht.
  - reflexivity.
  - apply join_all_empty. rewrite Forall_map.
    rewrite Forall_forall in *. intros c Hc. apply IH; [exact Hc|].
    destruct (hasTextNode c) eqn:Ec; [|reflexivity].
    assert (existsb hasTextNode cs = true) as E
        by (apply existsb_exists; now exists c).
    congruence.
Qed.

(** C7: extracting the text of the sibling sequence [A ++ B] gives the text
    of [A] followed by the text of [B]. *)
Theorem extractTextContent_app (A B : list node) :
  extractTextContent (Some (A ++ B))
  = (extractTextContent (Some A) ++ extractTextContent (Some B))%string.
Proof. simpl. now rewrite map_app, join_app. Qed.

(** C10: the document built by [createAdfFromBody] from a string [t] has
    exactly [t] as its extracted text. *)
Theorem createAdfFromBody_roundtrip (t : string) :
  extractTextContent (Some (content (createAdfFromBody t))) = t.
Proof. reflexivity. Qed.

(** C5, counterexample: on a "text" node with a "text" child the extractor
    returns the node's own text, not the text of the leaf. *)
Lemma extractTextContent_not_leaf_text :
  extractTextContent (Some [nestedText]) = "a"
  /\ leafTextOfDoc [nestedText] = "b"
  /\ extractTextContent (Some [nestedText]) <> leafTextOfDoc [nestedText].
Proof. repeat split. discriminate. Qed.

(** C5, amended: the extractor returns the concatenation, in depth-first
    left-to-right order and without separators, of the text (empty when
    absent) of every "text" node that is not below another "text" node;
    when no "text" node has children this is the text of the "text"
    leaves; an argument that is not an array gives the empty string, and
    so does a forest without "text" nodes. *)
Theorem extractTextContent_outer_text :
  (forall ns, extractTextContent (Some ns)
              = join "" (map (fun n => or_empty (ntext n))
                             (flat_map outerTextNodes ns)))
  /\ (forall ns, forallb textNodesAreLeaves ns = true ->
                 extractTextContent (Some ns) = leafTextOfDoc ns)
  /\ extractTextContent None = ""
  /\ (forall ns, existsb hasTextNode ns = false ->
                 extractTextContent (Some ns) = "").
Proof.
  repeat split.
  - intros ns. simpl. induction ns as [|n ns IH]; simpl.
    + reflexivity.
    + rewrite map_app, join_app, join_cons, IH. f_equal. apply textOfNode_outer.
  - intros ns H. unfold leafTextOfDoc. simpl. f_equal.
    apply map_ext_in. intros n Hn. apply textOfNode_leafText.
    rewrite forallb_forall in H. now apply H.
  - intros ns H. simpl. apply join_all_empty. rewrite Forall_map, Forall_forall.
    intros n Hn. apply textOfNode_no_text.
    destruct (hasTextNode n) eqn:E; [|reflexivity].
    assert (existsb hasTextNode ns = true) as E'
        by (apply existsb_exists; now exists n).
    congruence.
Qed.

Lemma extractTextContent_outer_text_witness :
  extractTextContent (Some [paragraph [textNode "Hello, "; textNode "world"];
                            paragraph [inlineCard "u"; textNode "!"]])
  = leafTextOfDoc [paragraph [textNode "Hello, "; textNode "world"];
                   paragraph [inlineCard "u"; textNode "!"]]
  /\ extractTextContent (Some [paragraph [inlineCard "u"]; paragraph []]) = "".
Proof.
  split.
  - apply (proj1 (proj2 extractTextContent_outer_text)). reflexivity.
  - apply (proj2 (proj2 (proj2 extractTextContent_outer_text))). reflexivity.
Defined.

(** ** Mention Extractor: traversal *)

(** Closes a branch in which nothing, or one literal, is pushed. *)
Ltac nil_case := simpl; rewrite ?app_nil_r; reflexivity.

Section Traversal.
Variables (src : mentionSource) (cid : option string).

Lemma fold_push (f : string -> mention) (ks : list string) (acc : list mention) :
  fold_left (fun ms k => ms ++ [f k]) ks acc = acc ++ map f ks.
Proof.
  revert acc. induction ks as [|k ks IH]; intros acc; simpl.
  - now rewrite app_nil_r.
  - rewrite IH, <- app_assoc. reflexivity.
Qed.

Lemma pushCard_app (n : node) (acc : list mention) :
  pushCard src cid n acc = acc ++ pushCard src cid n [].
Proof.
  unfold pushCard. destruct n as [t x [[[u|]]|] c]; cbn;
    destruct (t =? "inlineCard"); cbn; try nil_case.
  destruct (truthy u); cbn; [|nil_case].
  destruct (matchBrowse u); nil_case.
Qed.

Lemma pushText_app (n : node) (acc : list mention) :
  pushText src cid n acc = acc ++ pushText src cid n [].
Proof.
  unfold pushText. destruct n as [t [x|] a c]; cbn;
    destruct (t =? "text"); cbn; try nil_case.
  destruct (truthy x); cbn; [|nil_case].
  now rewrite !fold_push.
Qed.

Lemma own_pushes (n : node) (acc : list mention) :
  pushText src cid n (pushCard src cid n acc) = acc ++ ownMentions src cid n.
Proof.
  unfold ownMentions.
  rewrite pushText_app, pushCard_app, (pushText_app n (pushCard _ _ _ [])).
  now rewrite app_assoc.
Qed.

Lemma processNode_unfold (n : node) (acc : list mention) :
  processNode src cid n acc
  = match ncontent n with
    | Some cs => fold_left (fun ms c => processNode src cid c ms) cs
                           (acc ++ ownMentions src cid n)
    | None => acc ++ ownMentions src cid n
    end.
Proof. destruct n as [t x a [cs|]]; simpl; now rewrite own_pushes. Qed.

Lemma fold_processNode (cs : list node) :
  Forall (fun c => forall acc,
              processNode src cid c acc = acc ++ traversalMentions src cid c) cs ->
  forall acc,
    fold_left (fun ms c => processNode src cid c ms) cs acc
    = acc ++ flat_map (traversalMentions src cid) cs.
Proof.
  induction 1 as [|c cs Hc _ IH]; intros acc; simpl.
  - now rewrite app_nil_r.
  - rewrite Hc, IH, <- app_assoc. reflexivity.
Qed.

Lemma processNode_traversal (n : node) :
  forall acc, processNode src cid n acc = acc ++ traversalMentions src cid n.
Proof.
  induction n as [t x a|t x a cs IH] using node_ind; intros acc;
    rewrite processNode_unfold; simpl.
  - now rewrite app_nil_r.
  - rewrite (fold_processNode IH), <- app_assoc. reflexivity.
Qed.

Lemma collectMentions_traversal (content : list node) :
  collectMentions src cid content = flat_map (traversalMentions src cid) content.
Proof.
  unfold collectMentions. rewrite fold_processNode; [reflexivity|].
  apply Forall_forall. intros c _. apply processNode_traversal.
Qed.

Lemma ownMentions_uniform (n : node) : Forall (fromCall src cid) (ownMentions src cid n).
Proof.
  unfold ownMentions. rewrite pushText_app. apply Forall_app. split.
  - unfold pushCard. destruct n as [t x [[[u|]]|] c]; cbn;
      destruct (t =? "inlineCard"); cbn; try constructor.
    destruct (truthy u); cbn; [|constructor].
    destruct (matchBrowse u); repeat constructor.
  - unfold pushText. destruct n as [t [x|] a c]; cbn;
      destruct (t =? "text"); cbn; try constructor.
    destruct (truthy x); cbn; [|constructor].
    rewrite fold_push. simpl. apply Forall_map, Forall_forall.
    intros k _. reflexivity.
Qed.

Lemma traversalMentions_uniform (n : node) :
  Forall (fromCall src cid) (traversalMentions src cid n).
Proof.
  induction n as [t x a|t x a cs IH] using node_ind; simpl;
    apply Forall_app; split; try apply ownMentions_uniform; [constructor|].
  induction IH as [|c cs Hc _ IHcs]; simpl; [constructor|].
  apply Forall_app. now split.
Qed.

Lemma collectMentions_uniform (content : list node) :
  Forall (fromCall src cid) (collectMentions src cid content).
Proof.
  rewrite collectMentions_traversal.
  induction content as [|c cs IH]; simpl; [constructor|].
  apply Forall_app. split; [apply traversalMentions_uniform | exact IH].
Qed.
End Traversal.

(** ** Mention Extractor: the [Map] deduplication *)

Lemma existsb_eqb_In (k : string) (l : list string) :
  existsb (String.eqb k) l = true <-> In k l.
Proof.
  rewrite existsb_exists. split.
  - intros [x [Hx E]]. apply String.eqb_eq in E. now subst.
  - intros H. exists k. split; [exact H | apply String.eqb_refl].
Qed.

Lemma entriesOf_keys (ms : list mention) : map fst (entriesOf ms) = map key ms.
Proof. unfold entriesOf. rewrite map_map. reflexivity. Qed.

Lemma values_entriesOf (ms : list mention) : JsMap.values (entriesOf ms) = ms.
Proof.
  unfold JsMap.values, entriesOf. rewrite map_map. simpl. apply map_id.
Qed.

Lemma set_absent {V : Type} (k : string) (v : V) (m : list (string * V)) :
  ~ In k (map fst m) -> JsMap.set k v m = m ++ [(k, v)].
Proof.
  induction m as [|[k' v'] m IH]; simpl; intros H.
  - reflexivity.
  - destruct (String.eqb_spec k' k) as [E|E].
    + exfalso. apply H. now left.
    + rewrite IH; [reflexivity|]. intros Hin. apply H. now right.
Qed.

Section SameValuePerKey.
Variable g : string -> mention.

(** [set] on a key that is present rewrites its value in place; when the
    values are a function of the key nothing changes. *)
Lemma set_present (k : string) (acc : list mention) :
  Forall (fun m => m = g (key m)) acc ->
  In k (map key acc) ->
  JsMap.set k (g k) (entriesOf acc) = entriesOf acc.
Proof.
  induction 1 as [|m acc Hm _ IH]; simpl; intros Hin.
  - contradiction.
  - destruct (String.eqb_spec (key m) k) as [E|E].
    + rewrite <- E, <- Hm. reflexivity.
    + f_equal. apply IH. destruct Hin as [Hin|Hin]; [contradiction | exact Hin].
Qed.

Lemma ofEntries_from (ms acc : list mention) :
  Forall (fun m => m = g (key m)) ms ->
  Forall (fun m => m = g (key m)) acc ->
  fold_left (fun m kv => JsMap.set (fst kv) (snd kv) m) (entriesOf ms) (entriesOf acc)
  = entriesOf (acc ++ dedupFrom (map key acc) ms).
Proof.
  intros Hms. revert acc.
  induction Hms as [|a ms Ha _ IH]; intros acc Hacc; simpl.
  - now rewrite app_nil_r.
  - destruct (existsb (String.eqb (key a)) (map key acc)) eqn:E.
    + apply existsb_eqb_In in E. rewrite Ha at 2.
      rewrite (@set_present (key a) acc Hacc E). now apply IH.
    + assert (~ In (key a) (map key acc)) as Hn.
      { intros Hin. apply existsb_eqb_In in Hin. congruence. }
      rewrite set_absent by (now rewrite entriesOf_keys).
      change (entriesOf acc ++ [(key a, a)]) with (entriesOf acc ++ entriesOf [a]).
      unfold entriesOf at 2 3. rewrite <- map_app. fold (entriesOf (acc ++ [a])).
      rewrite IH.
      * rewrite map_app, <- app_assoc. reflexivity.
      * apply Forall_app. split; [exact Hacc | now constructor].
Qed.
End SameValuePerKey.

Lemma dedupFrom_keys (ms : list mention) :
  forall seen,
    NoDup (map key (dedupFrom seen ms))
    /\ (forall k, In k (map key (dedupFrom seen ms)) -> ~ In k seen).
Proof.
  induction ms as [|m ms IH]; intros seen; simpl.
  - split; [constructor | contradiction].
  - destruct (existsb (String.eqb (key m)) seen) eqn:E.
    + apply IH.
    + destruct (IH (seen ++ [key m])) as [Hnd Hout]. simpl. split.
      * constructor; [|exact Hnd]. intros Hin. apply (Hout _ Hin).
        apply in_or_app. right. now left.
      * intros k [Hk|Hk].
        -- subst k. intros Hin. apply existsb_eqb_In in Hin. congruence.
        -- intros Hin. apply (Hout _ Hk). apply in_or_app. now left.
Qed.

(** C1: the extractor returns the traversal-order mention list deduplicated
    by key, each key represented once, at the place of its first occurrence
    and by its first-encountered mention; a document meeting PROJ-1, PROJ-2,
    PROJ-1 yields exactly PROJ-1, PROJ-2. *)
Theorem extractIssueMentions_first_wins :
  (forall content src cid,
      extractIssueMentions content src cid
      = dedupByKey (flat_map (traversalMentions src cid) content)
      /\ NoDup (map key (extractIssueMentions content src cid)))
  /\ (forall src cid,
         map key (flat_map (traversalMentions src cid) repeatedKeyDoc)
         = ["PROJ-1"; "PROJ-2"; "PROJ-1"]
         /\ extractIssueMentions repeatedKeyDoc src cid
            = [mkTextMention src cid "PROJ-1"; mkTextMention src cid "PROJ-2"]
         /\ nth_error (extractIssueMentions repeatedKeyDoc src cid) 0
            = nth_error (flat_map (traversalMentions src cid) repeatedKeyDoc) 0).
Proof.
  split.
  - intros content src cid.
    assert (extractIssueMentions content src cid
            = dedupByKey (flat_map (traversalMentions src cid) content)) as E.
    { unfold extractIssueMentions, JsMap.ofEntries, dedupByKey.
      fold (entriesOf (collectMentions src cid content)).
      change (@nil (string * mention)) with (entriesOf []).
      rewrite (@ofEntries_from (mkTextMention src cid)).
      - simpl. rewrite values_entriesOf. now rewrite collectMentions_traversal.
      - apply collectMentions_uniform.
      - constructor. }
    split; [exact E|]. rewrite E. apply dedupFrom_keys.
  - intros src cid. repeat split.
Qed.

(** ** The regular expressions *)

Lemma take_length_app (p r : string) : Regex.take (String.length p) (p ++ r) = p.
Proof. induction p as [|c p IH]; simpl; [now destruct r | now rewrite IH]. Qed.

Lemma consumed_app (p r : string) : Regex.consumed (p ++ r) r = p.
Proof.
  unfold Regex.consumed. rewrite length_append.
  replace (String.length p + String.length r - String.length r)
    with (String.length p) by lia.
  apply take_length_app.
Qed.

Lemma span_split (p : ascii -> bool) (s : string) :
  s = (fst (span p s) ++ snd (span p s))%string.
Proof.
  induction s as [|c s IH]; simpl; [reflexivity|].
  destruct (p c); [|reflexivity].
  destruct (span p s) as [a b]. simpl in *. now rewrite IH at 1.
Qed.

Lemma span_all (p : ascii -> bool) (s : string) :
  allChars p (fst (span p s)) = true.
Proof.
  induction s as [|c s IH]; simpl; [reflexivity|].
  destruct (p c) eqn:E; [|reflexivity].
  destruct (span p s) as [a b]. simpl in *. now rewrite E.
Qed.

Lemma span_stops (p : ascii -> bool) (s : string) :
  stops p (snd (span p s)) = true.
Proof.
  induction s as [|c s IH]; simpl; [reflexivity|].
  destruct (p c) eqn:E.
  - destruct (span p s) as [a b]. exact IH.
  - simpl. now rewrite E.
Qed.

Lemma span_exact (p : ascii -> bool) (a b : string) :
  allChars p a = true -> stops p b = true -> span p (a ++ b) = (a, b).
Proof.
  intros Ha Hb. induction a as [|c a IH]; simpl in *.
  - destruct b as [|c b]; [reflexivity|]. simpl in Hb.
    apply negb_true_iff in Hb. simpl. now rewrite Hb.
  - apply andb_prop in Ha. destruct Ha as [Hc Ha].
    rewrite Hc, (IH Ha). reflexivity.
Qed.

Section Plus.
Variable A : Type.

(** When the continuation cannot start with a character of the class,
    giving characters back never helps: [cs+] takes the whole run. *)
Lemma plus_no_backtrack (cs : Regex.charset) (k : string -> option A) :
  (forall c r, Regex.mem cs c = true -> k (String c r) = None) ->
  forall s,
    Regex.plus cs s k
    = (if truthy (fst (span (Regex.mem cs) s))
       then k (snd (span (Regex.mem cs) s)) else None).
Proof.
  intros Hk. induction s as [|c s IH]; simpl; [reflexivity|].
  destruct (Regex.mem cs c) eqn:Ec; [|reflexivity].
  rewrite IH. destruct (span (Regex.mem cs) s) as [a b] eqn:Es. simpl.
  destruct a as [|x a]; simpl.
  - assert (b = s) as -> by (pose proof (span_split (Regex.mem cs) s) as H;
                             rewrite Es in H; simpl in H; now rewrite H).
    reflexivity.
  - destruct (k b) eqn:Ekb; [reflexivity|].
    pose proof (span_split (Regex.mem cs) s) as Hs.
    pose proof (span_all (Regex.mem cs) s) as Ha.
    rewrite Es in Hs, Ha. simpl in Hs, Ha.
    apply andb_prop in Ha. destruct Ha as [Hx _].
    rewrite Hs. now apply Hk.
Qed.

(** When the continuation always succeeds, the first try, after the
    whole run, is the answer. *)
Lemma plus_greedy (cs : Regex.charset) (k : string -> option A) :
  (forall r, k r <> None) ->
  forall s,
    Regex.plus cs s k
    = (if truthy (fst (span (Regex.mem cs) s))
       then k (snd (span (Regex.mem cs) s)) else None).
Proof.
  intros Hk. induction s as [|c s IH]; simpl; [reflexivity|].
  destruct (Regex.mem cs c) eqn:Ec; [|reflexivity].
  rewrite IH. destruct (span (Regex.mem cs) s) as [a b] eqn:Es. simpl.
  destruct a as [|x a]; simpl.
  - assert (b = s) as -> by (pose proof (span_split (Regex.mem cs) s) as H;
                             rewrite Es in H; simpl in H; now rewrite H).
    reflexivity.
  - destruct (k b) eqn:Ekb; [reflexivity|]. now apply Hk in Ekb.
Qed.

Lemma upper_not_dash (c : ascii) : isUpper c = true -> Ascii.eqb "-" c = false.
Proof.
  intros H. destruct (Ascii.eqb_spec "-" c) as [E|E]; [|reflexivity].
  subst c. discriminate H.
Qed.

Lemma run_issueKeyRe (s : string) (caps : list string)
      (k : string -> list string -> option A) :
  (forall r c, k r c <> None) ->
  Regex.run issueKeyRe s caps k
  = match keyPrefix s with
    | Some (_, rest) => k rest caps
    | None => None
    end.
Proof.
  intros Hk. unfold issueKeyRe, keyPrefix. cbn [Regex.run].
  rewrite plus_no_backtrack.
  2:{ intros c r Hc. fold (isUpper c) in Hc. now rewrite (upper_not_dash c Hc). }
  fold isUpper. destruct (span isUpper s) as [letters r1]. cbn [fst snd].
  destruct (truthy letters); [|reflexivity].
  destruct r1 as [|c r2]; [reflexivity|].
  destruct (Ascii.eqb "-" c); [|reflexivity].
  rewrite plus_greedy by (intros r; apply Hk).
  fold isDigit. destruct (span isDigit r2) as [digits r3]. cbn [fst snd].
  now destruct (truthy digits).
Qed.

Lemma run_lit (l : string) :
  forall c s caps (k : string -> list string -> option A),
    Regex.run (Regex.lit c l) s caps k
    = match stripPrefix (String c l) s with
      | Some r => k r caps
      | None => None
      end.
Proof.
  induction l as [|c' l IH]; intros c s caps k; simpl.
  - destruct s as [|x s]; [reflexivity|]. now destruct (Ascii.eqb c x).
  - destruct s as [|x s]; [reflexivity|].
    destruct (Ascii.eqb c x); [|reflexivity]. apply IH.
Qed.
End Plus.

(** ** Issue keys *)

Lemma keyPrefix_shape (s k r : string) :
  keyPrefix s = Some (k, r) ->
  exists letters digits,
    k = (letters ++ String "-" digits)%string
    /\ s = (k ++ r)%string
    /\ truthy letters = true /\ allChars isUpper letters = true
    /\ truthy digits = true /\ allChars isDigit digits = true
    /\ stops isDigit r = true.
Proof.
  unfold keyPrefix.
  pose proof (span_split isUpper s) as Hs. pose proof (span_all isUpper s) as Hl.
  destruct (span isUpper s) as [letters r1]. cbn [fst snd] in *.
  destruct (truthy letters) eqn:Tl; [|discriminate].
  destruct r1 as [|c r2]; [discriminate|].
  destruct (Ascii.eqb_spec "-" c) as [<-|]; [|discriminate].
  pose proof (span_split isDigit r2) as Hr. pose proof (span_all isDigit r2) as Hd.
  pose proof (span_stops isDigit r2) as Hstop.
  destruct (span isDigit r2) as [digits r3]. cbn [fst snd] in *.
  destruct (truthy digits) eqn:Td; [|discriminate].
  intros E. injection E as <- <-. exists letters, digits.
  repeat split; try assumption.
  rewrite Hs, Hr, append_assoc. reflexivity.
Qed.

Lemma keyPrefix_of_shape (letters digits r : string) :
  truthy letters = true -> allChars isUpper letters = true ->
  truthy digits = true -> allChars isDigit digits = true ->
  stops isDigit r = true ->
  keyPrefix ((letters ++ String "-" digits) ++ r)
  = Some ((letters ++ String "-" digits)%string, r).
Proof.
  intros Tl Hl Td Hd Hr. unfold keyPrefix.
  rewrite append_assoc. cbn [append].
  rewrite (span_exact isUpper letters (String "-" (digits ++ r)) Hl eq_refl).
  rewrite Tl. cbn [Ascii.eqb Bool.eqb].
  rewrite (span_exact isDigit digits r Hd Hr), Td. reflexivity.
Qed.

Lemma keyPrefix_split (s k r : string) :
  keyPrefix s = Some (k, r) -> s = (k ++ r)%string.
Proof.
  intros H. destruct (keyPrefix_shape s H) as (l & d & _ & E & _). exact E.
Qed.

Lemma keyPrefix_truthy (s k r : string) :
  keyPrefix s = Some (k, r) -> truthy k = true.
Proof.
  intros H. destruct (keyPrefix_shape s H) as (l & d & -> & _ & Tl & _).
  now destruct l.
Qed.

Lemma keyPrefix_isIssueKey (s k r : string) :
  keyPrefix s = Some (k, r) -> isIssueKey k = true.
Proof.
  intros H.
  destruct (keyPrefix_shape s H) as (l & d & -> & _ & Tl & Hl & Td & Hd & _).
  unfold isIssueKey.
  rewrite <- (append_nil_r (l ++ String "-" d)) at 1.
  rewrite (keyPrefix_of_shape l d "" Tl Hl Td Hd eq_refl).
  apply String.eqb_refl.
Qed.

Lemma match_here_issueKeyRe (s : string) :
  Regex.match_here issueKeyRe s
  = match keyPrefix s with
    | Some (k, rest) => Some (Regex.mkResult k [] rest)
    | None => None
    end.
Proof.
  unfold Regex.match_here. rewrite run_issueKeyRe by discriminate.
  destruct (keyPrefix s) as [[k rest]|] eqn:E; [|reflexivity].
  rewrite (keyPrefix_split s E), consumed_app. reflexivity.
Qed.

Lemma stripPrefix_app (p : string) :
  forall s r, stripPrefix p s = Some r <-> s = (p ++ r)%string.
Proof.
  induction p as [|c p IH]; intros s r; simpl.
  - split; [now intros [= ->] | now intros ->].
  - destruct s as [|x s]; [split; discriminate|].
    destruct (Ascii.eqb_spec c x) as [<-|N].
    + rewrite IH. split; [now intros -> | now intros [= ->]].
    + split; [discriminate | intros [= E _]; congruence].
Qed.

Lemma match_here_browseRe (s : string) :
  Regex.match_here browseRe s
  = match browsePrefix s with
    | Some (k, rest) => Some (Regex.mkResult ("/browse/" ++ k) [k] rest)
    | None => None
    end.
Proof.
  unfold Regex.match_here, browseRe, browsePrefix. cbn [Regex.run].
  rewrite run_lit.
  destruct (stripPrefix "/browse/" s) as [r|] eqn:Es; [|reflexivity].
  apply stripPrefix_app in Es. rewrite run_issueKeyRe by discriminate.
  destruct (keyPrefix r) as [[k rest]|] eqn:E; [|reflexivity].
  apply keyPrefix_split in E. subst r s.
  rewrite <- append_assoc, !consumed_app. reflexivity.
Qed.

(** ** The global scan finds exactly the specified matches *)

Lemma app_eq_empty (a b : string) : (a ++ b)%string = "" -> a = "" /\ b = "".
Proof. destruct a; simpl; [auto | discriminate]. Qed.

Lemma keyMatches_skip (c : ascii) (s : string) (ks : list string) :
  keyPrefix (String c s) = None ->
  keyMatches s ks -> keyMatches (String c s) ks.
Proof.
  intros Hc H. destruct H as [s Hnone | before k after ks Hgap Hk Hrest].
  - apply km_none. intros [|x pre] post E; simpl in E.
    + now subst post.
    + injection E as _ E. now apply (Hnone pre).
  - change (String c (before ++ k ++ after))
      with (String c before ++ k ++ after)%string.
    apply km_next; try assumption.
    intros [|x b1] b2 E N; simpl in E.
    + subst b2. exact Hc.
    + injection E as _ E. now apply (Hgap b1).
Qed.

Lemma scan_keyMatches (fuel : nat) :
  forall s, String.length s < fuel ->
            keyMatches s (Regex.scan fuel issueKeyRe s).
Proof.
  induction fuel as [|fuel IH]; intros s Hlen; [lia|].
  cbn [Regex.scan]. rewrite match_here_issueKeyRe.
  destruct (keyPrefix s) as [[k rest]|] eqn:E.
  - cbn [Regex.matched Regex.rest]. rewrite (keyPrefix_truthy s E).
    pose proof (keyPrefix_split s E) as Hs.
    pose proof (keyPrefix_truthy s E) as Hk.
    rewrite Hs in E |- *.
    change (k ++ rest)%string with ("" ++ k ++ rest)%string.
    apply km_next.
    + intros b1 b2 Eb N. symmetry in Eb. apply app_eq_empty in Eb. tauto.
    + exact E.
    + apply IH. rewrite Hs, length_append in Hlen.
      destruct k; [discriminate | simpl in Hlen; lia].
  - destruct s as [|c s].
    + apply km_none. intros pre post Eq. symmetry in Eq.
      apply app_eq_empty in Eq. destruct Eq as [_ ->]. reflexivity.
    + apply keyMatches_skip; [exact E|]. apply IH. simpl in Hlen. lia.
Qed.

Lemma scan_no_key (fuel : nat) :
  forall s, (forall pre post, s = (pre ++ post)%string -> keyPrefix post = None) ->
            Regex.scan fuel issueKeyRe s = [].
Proof.
  induction fuel as [|fuel IH]; intros s H; [reflexivity|].
  cbn [Regex.scan]. rewrite match_here_issueKeyRe, (H "" s eq_refl).
  destruct s as [|c s]; [reflexivity|].
  apply IH. intros pre post E. apply (H (String c pre)). now rewrite E.
Qed.

Lemma scan_complete (s : string) (ks : list string) :
  keyMatches s ks ->
  forall fuel, String.length s < fuel -> Regex.scan fuel issueKeyRe s = ks.
Proof.
  induction 1 as [s Hnone | before k after ks Hgap Hk Hrest IH]; intros fuel Hlen.
  - now apply scan_no_key.
  - revert fuel Hlen. induction before as [|c before IHb]; intros fuel Hlen.
    + destruct fuel as [|fuel]; [lia|].
      cbn [append Regex.scan]. rewrite match_here_issueKeyRe, Hk.
      cbn [Regex.matched Regex.rest]. rewrite (keyPrefix_truthy _ Hk).
      f_equal. apply IH. cbn [append] in Hlen. rewrite length_append in Hlen.
      pose proof (keyPrefix_truthy _ Hk) as T.
      destruct k; [discriminate | simpl in Hlen; lia].
    + destruct fuel as [|fuel]; [lia|].
      cbn [Regex.scan]. rewrite match_here_issueKeyRe.
      rewrite (Hgap "" (String c before) eq_refl) by discriminate.
      cbn [append]. apply IHb.
      * intros b1 b2 E N. apply (Hgap (String c b1)); [now rewrite E | exact N].
      * simpl in Hlen. lia.
Qed.

Lemma matchKeys_keyMatches (t : string) : keyMatches t (matchKeys t).
Proof. apply scan_keyMatches. lia. Qed.

Lemma keyMatches_matchKeys (t : string) (ks : list string) :
  keyMatches t ks -> matchKeys t = ks.
Proof. intros H. apply (scan_complete H). lia. Qed.

Lemma keyMatches_keys (s : string) (ks : list string) :
  keyMatches s ks -> Forall (fun k => isIssueKey k = true) ks.
Proof.
  induction 1 as [|before k after ks _ Hk _ IH]; constructor; [|exact IH].
  exact (keyPrefix_isIssueKey _ Hk).
Qed.

(** ** The first [/browse/KEY] of a URL *)

Lemma browseMatch_skip (c : ascii) (u k : string) :
  browsePrefix (String c u) = None ->
  browseMatch u k -> browseMatch (String c u) k.
Proof.
  intros Hc H. destruct H as [before k after Hgap Hk].
  change (String c (before ++ "/browse/" ++ k ++ after))
    with (String c before ++ "/browse/" ++ k ++ after)%string.
  apply bm_first; [|exact Hk].
  intros [|x b1] b2 E N; simpl in E.
  - subst b2. exact Hc.
  - injection E as _ E. now apply (Hgap b1).
Qed.

Lemma browsePrefix_split (s k rest : string) :
  browsePrefix s = Some (k, rest) ->
  s = ("/browse/" ++ k ++ rest)%string /\ keyPrefix (k ++ rest) = Some (k, rest).
Proof.
  unfold browsePrefix. destruct (stripPrefix "/browse/" s) as [r|] eqn:Es; [|discriminate].
  apply stripPrefix_app in Es. intros E.
  pose proof (keyPrefix_split r E) as Hr. subst r. split; [exact Es | exact E].
Qed.

Lemma matchBrowse_sound (u : string) :
  forall k, matchBrowse u = Some k -> browseMatch u k.
Proof.
  unfold matchBrowse.
  induction u as [|c u IH]; intros k; cbn [Regex.exec];
    rewrite match_here_browseRe.
  - discriminate.
  - destruct (browsePrefix (String c u)) as [[k' rest]|] eqn:E.
    + cbn [Regex.captures nth]. intros [= <-].
      destruct (browsePrefix_split _ E) as [-> Hk].
      change ("/browse/" ++ k' ++ rest)%string
        with ("" ++ "/browse/" ++ k' ++ rest)%string.
      apply bm_first; [|exact Hk].
      intros b1 b2 Eb N. symmetry in Eb. apply app_eq_empty in Eb. tauto.
    + intros H. apply browseMatch_skip; [exact E|]. now apply IH.
Qed.

Lemma matchBrowse_complete (u k : string) :
  browseMatch u k -> matchBrowse u = Some k.
Proof.
  intros [before k' after Hgap Hk]. unfold matchBrowse.
  induction before as [|c before IH].
  - assert (browsePrefix ("" ++ "/browse/" ++ k' ++ after) = Some (k', after)) as E
        by exact Hk.
    destruct after as [|x after]; cbn [append Regex.exec] in *;
      rewrite match_here_browseRe, E; reflexivity.
  - assert (String c before <> "") as N0 by discriminate.
    pose proof (Hgap "" (String c before) eq_refl N0) as Hc.
    cbn [append Regex.exec] in *. rewrite match_here_browseRe, Hc.
    apply IH. intros b1 b2 E N.
    apply (Hgap (String c b1)); [now rewrite E | exact N].
Qed.

(** ** What a node pushes *)

Lemma matchBrowse_truthy (u k : string) : matchBrowse u = Some k -> truthy u = true.
Proof. destruct u; [discriminate | reflexivity]. Qed.

Lemma pushCard_match (src : mentionSource) (cid : option string)
      (n : node) (u k : string) (acc : list mention) :
  ntype n = "inlineCard" -> nattrs n = Some (mkAttrs (Some u)) ->
  matchBrowse u = Some k ->
  pushCard src cid n acc = acc ++ [mkTextMention src cid k].
Proof.
  intros Ht Ha Hm. unfold pushCard. rewrite Ht, Ha. cbn.
  now rewrite (matchBrowse_truthy u Hm), Hm.
Qed.

Lemma pushText_match (src : mentionSource) (cid : option string)
      (n : node) (t : string) (acc : list mention) :
  ntype n = "text" -> ntext n = Some t ->
  pushText src cid n acc = acc ++ map (mkTextMention src cid) (matchKeys t).
Proof.
  intros Ht Hx. unfold pushText. rewrite Ht, Hx. cbn.
  destruct t as [|c t]; cbn [truthy].
  - now rewrite app_nil_r.
  - apply fold_push.
Qed.

Lemma ownMentions_card (src : mentionSource) (cid : option string)
      (n : node) (u k : string) :
  ntype n = "inlineCard" -> nattrs n = Some (mkAttrs (Some u)) ->
  matchBrowse u = Some k ->
  ownMentions src cid n = [mkTextMention src cid k].
Proof.
  intros Ht Ha Hm. unfold ownMentions.
  rewrite (pushCard_match src cid n [] Ht Ha Hm).
  unfold pushText. now rewrite Ht.
Qed.

Lemma ownMentions_text (src : mentionSource) (cid : option string)
      (n : node) (t : string) :
  ntype n = "text" -> ntext n = Some t ->
  ownMentions src cid n = map (mkTextMention src cid) (matchKeys t).
Proof.
  intros Ht Hx. unfold ownMentions.
  assert (pushCard src cid n [] = []) as -> by (unfold pushCard; now rewrite Ht).
  now rewrite (pushText_match src cid n [] Ht Hx).
Qed.

Lemma isIssueKey_iff (k : string) :
  isIssueKey k = true <->
  exists letters digits,
    k = (letters ++ String "-" digits)%string
    /\ truthy letters = true /\ allChars isUpper letters = true
    /\ truthy digits = true /\ allChars isDigit digits = true.
Proof.
  split.
  - unfold isIssueKey. destruct (keyPrefix k) as [[k' r]|] eqn:E; [|discriminate].
    destruct r; [|discriminate]. intros Hk. apply String.eqb_eq in Hk. subst k'.
    destruct (keyPrefix_shape k E) as (l & d & Hk & _ & Tl & Hl & Td & Hd & _).
    now exists l, d.
  - intros (l & d & -> & Tl & Hl & Td & Hd). unfold isIssueKey.
    rewrite <- (append_nil_r (l ++ String "-" d)) at 1.
    rewrite (keyPrefix_of_shape l d "" Tl Hl Td Hd eq_refl).
    apply String.eqb_refl.
Qed.

(** C6: the traversal emits, node after node, what each node contributes;
    an [inlineCard] node whose [attrs.url] matches [/browse/K] contributes
    one mention with key [K], type "mention" and the given source and
    comment id; a "text" node contributes one such mention per match of the
    key pattern in its text, from left to right; every text has such a
    match list, made of issue keys; and the sample card yields the single
    key ABC-123. *)
Theorem processNode_emits :
  (forall src cid content,
      collectMentions src cid content
      = flat_map (traversalMentions src cid) content)
  /\ (forall src cid n u k,
         ntype n = "inlineCard" -> nattrs n = Some (mkAttrs (Some u)) ->
         browseMatch u k ->
         ownMentions src cid n = [mkTextMention src cid k]
         /\ isIssueKey k = true)
  /\ (forall src cid n t ks,
         ntype n = "text" -> ntext n = Some t ->
         keyMatches t ks ->
         ownMentions src cid n = map (mkTextMention src cid) ks)
  /\ (forall t, keyMatches t (matchKeys t)
                /\ Forall (fun k => isIssueKey k = true) (matchKeys t))
  /\ (forall src cid,
         extractIssueMentions
           [inlineCard "https://x.atlassian.net/browse/ABC-123"] src cid
         = [mkTextMention src cid "ABC-123"]).
Proof.
  repeat split.
  - intros src cid content. apply collectMentions_traversal.
  - apply ownMentions_card with (u := u); try assumption.
    now apply matchBrowse_complete.
  - match goal with H : browseMatch _ _ |- _ => destruct H as [b k' a _ Hk] end.
    exact (keyPrefix_isIssueKey _ Hk).
  - intros src cid n t ks Ht Hx Hm.
    rewrite <- (keyMatches_matchKeys Hm). now apply ownMentions_text.
  - apply matchKeys_keyMatches.
  - apply keyMatches_keys with (s := t). apply matchKeys_keyMatches.
Qed.

Lemma processNode_emits_witness :
  (ownMentions Comment (Some "501")
               (inlineCard "https://x.atlassian.net/browse/ABC-123?focus=1")
   = [mkTextMention Comment (Some "501") "ABC-123"]
   /\ isIssueKey "ABC-123" = true)
  /\ ownMentions Description None
                 (textNode "See PROJ-10 and PROJ-11, blocked by PROJ-10")
     = map (mkTextMention Description None) ["PROJ-10"; "PROJ-11"; "PROJ-10"].
Proof.
  split.
  - apply (proj1 (proj2 processNode_emits) Comment (Some "501")
                 (inlineCard "https://x.atlassian.net/browse/ABC-123?focus=1")
                 "https://x.atlassian.net/browse/ABC-123?focus=1" "ABC-123"
                 eq_refl eq_refl).
    apply matchBrowse_sound. reflexivity.
  - apply (proj1 (proj2 (proj2 processNode_emits)) Description None
                 (textNode "See PROJ-10 and PROJ-11, blocked by PROJ-10")
                 "See PROJ-10 and PROJ-11, blocked by PROJ-10"
                 ["PROJ-10"; "PROJ-11"; "PROJ-10"] eq_refl eq_refl).
    exact (matchKeys_keyMatches "See PROJ-10 and PROJ-11, blocked by PROJ-10").
Defined.

(** The spec's text example: two mentions, in order. *)
Example extractIssueMentions_blocked_by :
  extractIssueMentions
    [paragraph [textNode "See PROJ-10 and PROJ-11, blocked by PROJ-10"]]
    Description None
  = [mkTextMention Description None "PROJ-10";
     mkTextMention Description None "PROJ-11"].
Proof. reflexivity. Qed.

(** [Map.prototype.set] keeps the place of the first entry of a key and
    the value of the last one. *)
Example jsmap_last_value_first_place :
  JsMap.values (JsMap.ofEntries [("k", 1); ("j", 2); ("k", 3)]) = [3; 2].
Proof. reflexivity. Qed.

(** ** Process self, then children *)

(** C4, counterexample: on a "text" node with a child the text extractor
    returns the node's own text only, while the mention extractor reports
    the node and its child. *)
Lemma textOfNode_skips_children_of_text :
  ntype nestedKeyText = "text"
  /\ ncontent nestedKeyText = Some [textNode "B-2"]
  /\ extractTextContent (Some [nestedKeyText]) = "A-1"
  /\ (or_empty (ntext nestedKeyText)
      ++ extractTextContent (ncontent nestedKeyText))%string = "A-1B-2"
  /\ map key (extractIssueMentions [nestedKeyText] Description None)
     = ["A-1"; "B-2"].
Proof. repeat split. Qed.

(** C4, amended: the mention extractor processes a node's own rules and
    then its children, whatever the node's type; the text extractor
    returns the own text of a "text" node without visiting its children,
    and the text of the children for any other node that has them. *)
Theorem self_then_children :
  (forall src cid n acc,
      processNode src cid n acc
      = acc ++ ownMentions src cid n
            ++ match ncontent n with
               | Some cs => collectMentions src cid cs
               | None => []
               end)
  /\ (forall n cs, ntype n <> "text" -> ncontent n = Some cs ->
                   textOfNode n = extractTextContent (Some cs))
  /\ (forall n, ntype n = "text" -> textOfNode n = or_empty (ntext n)).
Proof.
  repeat split.
  - intros src cid n acc. rewrite processNode_traversal.
    destruct n as [t x a [cs|]]; cbn [traversalMentions ncontent];
      now rewrite ?collectMentions_traversal.
  - intros n cs. apply textOfNode_container.
  - intros n. apply textOfNode_text.
Qed.

Lemma self_then_children_witness :
  textOfNode (paragraph [textNode "a"; textNode "b"])
  = extractTextContent (Some [textNode "a"; textNode "b"])
  /\ textOfNode nestedKeyText = or_empty (ntext nestedKeyText).
Proof.
  split.
  - apply (proj1 (proj2 self_then_children)); [discriminate | reflexivity].
  - apply (proj2 (proj2 self_then_children)). reflexivity.
Defined.

(** ** Issue Normalizer *)

Lemma nonempty_or_nil {A : Type} (l : list A) :
  (if (0 <? List.length l)%nat then l else []) = l.
Proof. now destruct l. Qed.

(** [cleanIssue] throws exactly when a link has neither side, and
    otherwise lists the description mentions followed by the links. *)
Lemma cleanIssue_related (issue : rawIssue) :
  match cleanIssue issue, mapM linkMention (issuelinksOf issue) with
  | Ok i, Ok links => relatedIssues i = descriptionMentions issue ++ links
  | Throw e, Throw e' => e = e'
  | _, _ => False
  end.
Proof.
  unfold cleanIssue, descriptionMentions, issuelinksOf.
  destruct (opt_bind (i_fields issue) f_issuelinks) as [[|l ls]|];
    cbn [bind mapM relatedIssues].
  - destruct (opt_bind (opt_bind (i_fields issue) f_description) d_content);
      now rewrite ?nonempty_or_nil, app_nil_r.
  - destruct (linkMention l) as [m|e]; cbn [bind]; [|reflexivity].
    destruct (mapM linkMention ls) as [ms|e]; cbn [bind relatedIssues]; [|reflexivity].
    destruct (opt_bind (opt_bind (i_fields issue) f_description) d_content);
      now rewrite ?nonempty_or_nil.
  - destruct (opt_bind (opt_bind (i_fields issue) f_description) d_content);
      now rewrite ?nonempty_or_nil, app_nil_r.
Qed.

Lemma cleanIssue_epicLink (issue : rawIssue) (i : CleanJiraIssue) (e : issueRef) :
  cleanIssue issue = Ok i -> epicLink i = Some e -> ref_summary e = None.
Proof.
  unfold cleanIssue.
  destruct (match opt_bind (i_fields issue) f_issuelinks with
            | Some (_ :: _ as issuelinks) => _
            | _ => _
            end) as [r|err]; cbn [bind]; [|discriminate].
  intros [= <-]. cbn [epicLink].
  destruct (opt_bind (i_fields issue) f_customfield_10014) as [v|]; [|discriminate].
  destruct (truthy v); [|discriminate]. now intros [= <-].
Qed.

(** C2, evaluation: for a link with only its outward side whose type
    carries both labels, the normalizer reports the inward label, where the
    label of the populated side is "blocks"; with the outward label alone it
    reports "blocks". *)
Lemma cleanIssue_outward_link_takes_inward_label :
  match cleanIssue (issueWithLinks [blocksLink]) with
  | Ok i => relatedIssues i
            = [mkMention "XYZ-9" None TLink (Some "is blocked by") Description None]
  | Throw _ => False
  end
  /\ specRelationship blocksLink = Some "blocks"
  /\ match cleanIssue (issueWithLinks [blocksLinkOutwardOnly]) with
     | Ok i => relatedIssues i
               = [mkMention "XYZ-9" None TLink (Some "blocks") Description None]
     | Throw _ => False
     end.
Proof. repeat split. Qed.

(** The label reported for a link never looks at which side is
    populated. *)
Lemma linkMention_relationship (link : rawLink) (m : mention) :
  linkMention link = Ok m ->
  relationship m = js_or (inward (l_type link)) (outward (l_type link)).
Proof.
  unfold linkMention.
  destruct (match inwardIssue link with Some i => Some i | None => outwardIssue link end);
    [|discriminate].
  now intros [= <-].
Qed.

(** ** [getIssueWithComments]: the related issues *)

(** C3: when both requests succeed, the related issues of the result are
    the description mentions, then the link mentions, then the mentions of
    the comments in order, nothing being dropped across the three; an issue
    whose description and whose only comment both name DUP-1 carries two
    entries keyed DUP-1. *)
Theorem relatedIssues_concatenation :
  (forall w issueId issueData commentsData cs links,
      fetchJson (issueReply w issueId) = Ok issueData ->
      fetchJson (commentsReply w issueId) = Ok commentsData ->
      comments_of commentsData = Some cs ->
      mapM linkMention (issuelinksOf issueData) = Ok links ->
      exists issue,
        getIssueWithComments w issueId = Ok issue
        /\ relatedIssues issue
           = descriptionMentions issueData ++ links
             ++ flat_map (fun c => mentions (cleanComment c)) cs)
  /\ match getIssueWithComments dupTracker "PROJ-1" with
     | Ok issue =>
         relatedIssues issue
         = [mkTextMention Description None "DUP-1";
            mkTextMention Comment (Some "501") "DUP-1"]
     | Throw _ => False
     end.
Proof.
  split; [|reflexivity].
  intros w issueId issueData commentsData cs links Hi Hc Hcs Hl.
  unfold getIssueWithComments. rewrite Hi, Hc. cbn [promiseAll].
  pose proof (cleanIssue_related issueData) as Hr. rewrite Hl in Hr.
  destruct (cleanIssue issueData) as [i|e]; [|contradiction].
  rewrite Hcs. cbn [bind].
  assert (flat_map mentions (map cleanComment cs)
          = flat_map (fun c => mentions (cleanComment c)) cs) as Hm.
  { clear. induction cs as [|c cs IH]; simpl; [reflexivity | now rewrite IH]. }
  destruct (epicLink (set_comments _ _)) as [epic|];
    [destruct (fetchJson (epicReply w (ref_key epic)))|];
    eexists; (split; [reflexivity|]);
    cbn [relatedIssues set_epicSummary set_comments set_relatedIssues];
    now rewrite Hr, Hm, app_assoc.
Qed.

Lemma relatedIssues_concatenation_witness :
  exists issue,
    getIssueWithComments dupTracker "PROJ-1" = Ok issue
    /\ relatedIssues issue
       = descriptionMentions dupIssue ++ []
         ++ flat_map (fun c => mentions (cleanComment c)) [dupComment].
Proof.
  apply (proj1 relatedIssues_concatenation dupTracker "PROJ-1" dupIssue
               (mkRawComments (Some [dupComment])) [dupComment] []);
    reflexivity.
Defined.

(** ** [getIssueWithComments]: error handling *)

Lemma prefix_app (b c : string) : prefix b (b ++ c) = true.
Proof.
  induction b as [|x b IH]; simpl.
  - now destruct c.
  - destruct (ascii_dec x x); [exact IH | contradiction].
Qed.

Lemma includes_unfold (s needle : string) :
  includes s needle
  = if prefix needle s then true
    else match s with
         | EmptyString => false
         | String _ s' => includes s' needle
         end.
Proof. now destruct s. Qed.

Lemma includes_app (a b c : string) : includes (a ++ b ++ c) b = true.
Proof.
  induction a as [|x a IH]; cbn [append]; rewrite includes_unfold.
  - now rewrite prefix_app.
  - destruct (prefix b (String x (a ++ b ++ c))); [reflexivity | exact IH].
Qed.

Lemma includes_suffix (a b : string) : includes (a ++ b) b = true.
Proof. rewrite <- (append_nil_r b) at 1. apply includes_app. Qed.

(** A failed response with status 404 always yields an error whose
    message carries the marker looked for by [getIssueWithComments]. *)
Lemma handleFetchError_404 {T : Type} (r : response T) :
  ok r = false -> http_status r = 404%N ->
  includes (message (handleFetchError r)) "(Status: 404)" = true.
Proof.
  intros Hok Hst. unfold handleFetchError. rewrite Hok, Hst. cbn [negb message].
  match goal with
  | |- includes ("JIRA API Error" ++ ?em ++ _) _ = true =>
      replace ("JIRA API Error" ++ em ++ " (Status: " ++ string_of_N 404 ++ ")")%string
        with (("JIRA API Error" ++ em ++ " ") ++ "(Status: 404)")%string
        by (rewrite !append_assoc; reflexivity)
  end.
  apply includes_suffix.
Qed.

(** C8, counterexample: the issue request is answered 404, the comments
    request fails first with a 500; the error raised is the comments
    failure, and its message does not name the issue. *)
Lemma not_found_lost_in_race :
  fetchJson (issueReply raceTracker "PROJ-1")
  = Throw (mkError "JIRA API Error: Not Found (Status: 404)")
  /\ getIssueWithComments raceTracker "PROJ-1"
     = Throw (mkError "JIRA API Error: Internal Server Error (Status: 500)")
  /\ includes "JIRA API Error: Internal Server Error (Status: 500)" "PROJ-1" = false.
Proof. repeat split. Qed.

(** C8, amended: when the issue request is answered with status 404,
    [getIssueWithComments] raises an error and returns no issue; the error
    is "Issue not found: <id>", whose message includes the identifier,
    whenever the comments request succeeds, settles after the issue request,
    or fails with a 404 as well; a comments failure of another kind that
    settles first is re-thrown as it is. *)
Theorem issue_not_found_is_reported
        (w : tracker) (issueId : string) (r : response rawIssue) :
  issueReply w issueId = Responded r -> ok r = false -> http_status r = 404%N ->
  (exists e, getIssueWithComments w issueId = Throw e)
  /\ (commentsSettleFirst w = false
      \/ (exists d, fetchJson (commentsReply w issueId) = Ok d)
      \/ (exists e, fetchJson (commentsReply w issueId) = Throw e
                    /\ includes (message e) "(Status: 404)" = true) ->
      getIssueWithComments w issueId = Throw (mkError ("Issue not found: " ++ issueId))
      /\ includes ("Issue not found: " ++ issueId) issueId = true)
  /\ (forall e, commentsSettleFirst w = true ->
                fetchJson (commentsReply w issueId) = Throw e ->
                includes (message e) "(Status: 404)" = false ->
                getIssueWithComments w issueId = Throw e).
Proof.
  intros Hr Hok Hst.
  pose proof (handleFetchError_404 r Hok Hst) as H404.
  unfold getIssueWithComments. rewrite Hr. cbn [fetchJson]. rewrite Hok. cbn [negb].
  split; [|split].
  - destruct (fetchJson (commentsReply w issueId)) as [d|e2]; cbn [promiseAll].
    + rewrite H404. eexists. reflexivity.
    + destruct (commentsSettleFirst w).
      * destruct (includes (message e2) "(Status: 404)"); eexists; reflexivity.
      * rewrite H404. eexists. reflexivity.
  - intros Hcase. split; [|apply includes_suffix].
    destruct Hcase as [Hfirst | [[d Hd] | [e2 [He2 Hm]]]].
    + rewrite Hfirst.
      destruct (fetchJson (commentsReply w issueId)); cbn [promiseAll];
        now rewrite H404.
    + rewrite Hd. cbn [promiseAll]. now rewrite H404.
    + rewrite He2. cbn [promiseAll].
      destruct (commentsSettleFirst w); [now rewrite Hm | now rewrite H404].
  - intros e Hfirst He Hm. rewrite He, Hfirst. cbn [promiseAll]. now rewrite Hm.
Qed.

Lemma issue_not_found_is_reported_witness :
  (exists e, getIssueWithComments unknownIssueTracker "NOPE-7" = Throw e)
  /\ getIssueWithComments unknownIssueTracker "NOPE-7"
     = Throw (mkError "Issue not found: NOPE-7")
  /\ includes "Issue not found: NOPE-7" "NOPE-7" = true.
Proof.
  destruct (@issue_not_found_is_reported
              unknownIssueTracker "NOPE-7"
              (mkResponse false 404 "Not Found" None None)
              eq_refl eq_refl eq_refl) as (Hthrows & Hmsg & _).
  split; [exact Hthrows|]. apply Hmsg.
  right. right. eexists. split; reflexivity.
Defined.

(** C9: for an issue with an epic link, a failing epic-summary request is
    swallowed: the call returns the issue as assembled before the request,
    its epic link without summary; had the request succeeded, only that
    summary would differ. *)
Theorem epic_lookup_failure_is_suppressed
        (w : tracker) (issueId : string) (issueData : rawIssue)
        (commentsData : rawComments) (cs : list rawComment)
        (issue0 : CleanJiraIssue) (epic : issueRef) (err : error) :
  fetchJson (issueReply w issueId) = Ok issueData ->
  fetchJson (commentsReply w issueId) = Ok commentsData ->
  comments_of commentsData = Some cs ->
  cleanIssue issueData = Ok issue0 ->
  epicLink issue0 = Some epic ->
  fetchJson (epicReply w (ref_key epic)) = Throw err ->
  let assembled :=
    set_comments (map cleanComment cs)
      (set_relatedIssues
         (relatedIssues issue0 ++ flat_map mentions (map cleanComment cs)) issue0) in
  getIssueWithComments w issueId = Ok assembled
  /\ epicLink assembled = Some epic
  /\ ref_summary epic = None
  /\ (forall w2 epicData,
         issueReply w2 = issueReply w -> commentsReply w2 = commentsReply w ->
         fetchJson (epicReply w2 (ref_key epic)) = Ok epicData ->
         getIssueWithComments w2 issueId
         = Ok (set_epicSummary (opt_bind (i_fields epicData) f_summary) assembled)).
Proof.
  intros Hi Hc Hcs H0 He Herr assembled. repeat split.
  - unfold getIssueWithComments. rewrite Hi, Hc. cbn [promiseAll].
    rewrite H0, Hcs. cbn [bind]. fold assembled.
    assert (epicLink assembled = Some epic) as -> by exact He.
    now rewrite Herr.
  - exact He.
  - exact (cleanIssue_epicLink issueData H0 He).
  - intros w2 epicData Ei Ec Hepic.
    unfold getIssueWithComments. rewrite Ei, Ec, Hi, Hc. cbn [promiseAll].
    rewrite H0, Hcs. cbn [bind]. fold assembled.
    assert (epicLink assembled = Some epic) as -> by exact He.
    now rewrite Hepic.
Qed.

Lemma epic_lookup_failure_is_suppressed_witness :
  exists issue,
    getIssueWithComments epicDownTracker "PROJ-2" = Ok issue
    /\ epicLink issue = Some (mkIssueRef "PROJ-100" "PROJ-100" None)
    /\ ikey issue = "PROJ-2".
Proof.
  destruct (@epic_lookup_failure_is_suppressed
              epicDownTracker "PROJ-2" epicIssue
              (mkRawComments (Some [dupComment])) [dupComment]
              (mkCleanJiraIssue "10002" "PROJ-2" (Some "Child") None None None ""
                 [] None (Some (mkIssueRef "PROJ-100" "PROJ-100" None)) None None)
              (mkIssueRef "PROJ-100" "PROJ-100" None)
              (mkError "JIRA API Error: Service Unavailable (Status: 503)")
              eq_refl eq_refl eq_refl eq_refl eq_refl eq_refl)
    as (Hres & Hepic & _).
  eexists. split; [exact Hres|]. split; [exact Hepic | reflexivity].
Defined.

(* ================================================================= *)
(** * Further properties of the service *)

(** ** Mention Extractor: what the result contains *)

Lemma extractIssueMentions_dedup (content : list node) (src : mentionSource)
      (cid : option string) :
  extractIssueMentions content src cid
  = dedupByKey (flat_map (traversalMentions src cid) content).
Proof.
  unfold extractIssueMentions, JsMap.ofEntries, dedupByKey.
  fold (entriesOf (collectMentions src cid content)).
  change (@nil (string * mention)) with (entriesOf []).
  rewrite (@ofEntries_from (mkTextMention src cid)).
  - simpl. rewrite values_entriesOf. now rewrite collectMentions_traversal.
  - apply collectMentions_uniform.
  - constructor.
Qed.

Lemma dedupFrom_In (ms : list mention) :
  forall seen m, In m (dedupFrom seen ms) -> In m ms.
Proof.
  induction ms as [|a ms IH]; intros seen m; simpl; [tauto|].
  destruct (existsb (String.eqb (key a)) seen).
  - intros H. right. now apply (IH seen).
  - intros [H|H]; [now left | right; now apply (IH (seen ++ [key a]))].
Qed.

Lemma dedupFrom_key_In (ms : list mention) :
  forall seen k,
    In k (map key (dedupFrom seen ms)) <-> In k (map key ms) /\ ~ In k seen.
Proof.
  induction ms as [|a ms IH]; intros seen k; simpl; [tauto|].
  destruct (existsb (String.eqb (key a)) seen) eqn:E.
  - apply existsb_eqb_In in E. rewrite IH. split.
    + intros [H N]. split; [now right | exact N].
    + intros [[H|H] N]; [subst k; contradiction | now split].
  - assert (~ In (key a) seen) as Na.
    { intros H. apply existsb_eqb_In in H. congruence. }
    simpl. rewrite IH. rewrite in_app_iff. simpl. split.
    + intros [H|[H N]].
      * subst k. split; [now left | exact Na].
      * split; [now right | tauto].
    + intros [[H|H] N]; [now left|].
      destruct (string_dec (key a) k) as [Ek|Ek]; [now left | right].
      split; [exact H | tauto].
Qed.

Lemma ownMentions_keys (src : mentionSource) (cid : option string) (n : node) :
  Forall (fun m => isIssueKey (key m) = true) (ownMentions src cid n).
Proof.
  unfold ownMentions. rewrite pushText_app. apply Forall_app. split.
  - unfold pushCard. destruct n as [t x [[[u|]]|] c]; cbn;
      destruct (t =? "inlineCard"); cbn; try constructor.
    destruct (truthy u); cbn; [|constructor].
    destruct (matchBrowse u) as [k|] eqn:E; [|constructor].
    constructor; [|constructor]. cbn [key mkTextMention].
    apply matchBrowse_sound in E. destruct E as [b k' a _ Hk].
    exact (keyPrefix_isIssueKey _ Hk).
  - unfold pushText. destruct n as [t [x|] a c]; cbn;
      destruct (t =? "text"); cbn; try constructor.
    destruct (truthy x); cbn; [|constructor].
    rewrite fold_push. simpl. apply Forall_map.
    exact (keyMatches_keys (matchKeys_keyMatches x)).
Qed.

Lemma traversalMentions_keys (src : mentionSource) (cid : option string) (n : node) :
  Forall (fun m => isIssueKey (key m) = true) (traversalMentions src cid n).
Proof.
  induction n as [t x a|t x a cs IH] using node_ind; simpl;
    apply Forall_app; split; try apply ownMentions_keys; [constructor|].
  induction IH as [|c cs Hc _ IHcs]; simpl; [constructor|].
  apply Forall_app. now split.
Qed.

Lemma extractIssueMentions_In
      (content : list node) (src : mentionSource) (cid : option string)
      (m : mention) :
  In m (extractIssueMentions content src cid) ->
  m = mkTextMention src cid (key m) /\ isIssueKey (key m) = true.
Proof.
  rewrite extractIssueMentions_dedup. unfold dedupByKey. intros H.
  apply dedupFrom_In in H. apply in_flat_map in H. destruct H as [n [_ Hm]].
  split.
  - pose proof (traversalMentions_uniform src cid n) as U.
    rewrite Forall_forall in U. now apply U.
  - pose proof (traversalMentions_keys src cid n) as K.
    rewrite Forall_forall in K. now apply K.
Qed.

(** X1: every mention returned by the extractor is the literal
    [{key, type: "mention", source, commentId}] of this call, and its key
    has the shape of an issue key. *)
Theorem extractIssueMentions_wellformed
        (content : list node) (src : mentionSource) (cid : option string)
        (m : mention) :
  In m (extractIssueMentions content src cid) ->
  m = mkTextMention src cid (key m) /\ isIssueKey (key m) = true.
Proof. apply extractIssueMentions_In. Qed.

Lemma extractIssueMentions_wellformed_witness :
  mkTextMention Comment (Some "501") "PROJ-2"
  = mkTextMention Comment (Some "501") (key (mkTextMention Comment (Some "501") "PROJ-2"))
  /\ isIssueKey (key (mkTextMention Comment (Some "501") "PROJ-2")) = true.
Proof.
  apply (@extractIssueMentions_wellformed repeatedKeyDoc Comment (Some "501")).
  simpl. right. left. reflexivity.
Defined.

(** X2: deduplication neither loses nor invents a key: the keys of the
    result are exactly the keys met during the traversal. *)
Theorem extractIssueMentions_keeps_every_key
        (content : list node) (src : mentionSource) (cid : option string)
        (k : string) :
  In k (map key (extractIssueMentions content src cid))
  <-> In k (map key (flat_map (traversalMentions src cid) content)).
Proof.
  rewrite extractIssueMentions_dedup. unfold dedupByKey.
  rewrite dedupFrom_key_In. simpl. tauto.
Qed.

(** ** Mention Extractor: sibling sequences *)

Lemma existsb_incl (k : string) (s1 s2 : list string) :
  incl s1 s2 -> existsb (String.eqb k) s1 = true -> existsb (String.eqb k) s2 = true.
Proof. intros Hi H. apply existsb_eqb_In. apply Hi. now apply existsb_eqb_In. Qed.

Lemma dedupFrom_app (l1 l2 : list mention) :
  forall seen,
    dedupFrom seen (l1 ++ l2)
    = dedupFrom seen l1 ++ dedupFrom (seen ++ map key (dedupFrom seen l1)) l2.
Proof.
  induction l1 as [|a l1 IH]; intros seen; simpl.
  - now rewrite app_nil_r.
  - destruct (existsb (String.eqb (key a)) seen); [apply IH|].
    simpl. rewrite IH. f_equal. f_equal. rewrite <- app_assoc. reflexivity.
Qed.

(** Deduplicating an already deduplicated list against a larger set of
    seen keys is deduplicating the list itself. *)
Lemma dedupFrom_absorb (l : list mention) :
  forall s s', incl s' s -> dedupFrom s (dedupFrom s' l) = dedupFrom s l.
Proof.
  induction l as [|a l IH]; intros s s' Hi; simpl; [reflexivity|].
  destruct (existsb (String.eqb (key a)) s') eqn:E'.
  - rewrite (existsb_incl _ Hi E'). now apply IH.
  - simpl. destruct (existsb (String.eqb (key a)) s) eqn:E.
    + apply IH. intros k Hk. apply in_app_or in Hk. destruct Hk as [Hk|[<-|[]]].
      * now apply Hi.
      * now apply existsb_eqb_In.
    + f_equal. apply IH. intros k Hk. apply in_or_app.
      apply in_app_or in Hk. destruct Hk as [Hk|Hk]; [left; now apply Hi | now right].
Qed.

(** X3: the mentions of a sibling sequence [A ++ B] are the mentions of [A]
    followed by those of [B], deduplicated once more, keeping the first. *)
Theorem extractIssueMentions_app
        (A B : list node) (src : mentionSource) (cid : option string) :
  extractIssueMentions (A ++ B) src cid
  = dedupByKey (extractIssueMentions A src cid ++ extractIssueMentions B src cid).
Proof.
  rewrite !extractIssueMentions_dedup. unfold dedupByKey.
  rewrite flat_map_app, !dedupFrom_app. simpl.
  rewrite (dedupFrom_absorb _ (s := []) (s' := [])) by apply incl_refl.
  f_equal.
  rewrite (dedupFrom_absorb _ (s' := [])); [reflexivity | intros k []].
Qed.

(** ** The key pattern on texts *)

Lemma isIssueKey_keyPrefix (k after : string) :
  isIssueKey k = true -> stops isDigit after = true ->
  keyPrefix (k ++ after) = Some (k, after).
Proof.
  intros Hk Hs. apply isIssueKey_iff in Hk.
  destruct Hk as (l & d & -> & Tl & Hl & Td & Hd).
  now apply keyPrefix_of_shape.
Qed.

Lemma keyMatches_single (k : string) :
  isIssueKey k = true -> keyMatches k [k].
Proof.
  intros Hk.
  replace k with ("" ++ k ++ "")%string at 1 by (simpl; apply append_nil_r).
  apply km_next.
  - intros b1 b2 E N. symmetry in E. apply app_eq_empty in E. tauto.
  - now apply isIssueKey_keyPrefix.
  - apply km_none. intros pre post E. symmetry in E.
    apply app_eq_empty in E. destruct E as [_ ->]. reflexivity.
Qed.

Lemma keyMatches_join (ks : list string) :
  Forall (fun k => isIssueKey k = true) ks ->
  keyMatches (join " " ks) ks.
Proof.
  induction 1 as [|k ks Hk Hks IH].
  - apply km_none. intros pre post E. symmetry in E.
    apply app_eq_empty in E. destruct E as [_ ->]. reflexivity.
  - destruct ks as [|k2 ks].
    + now apply keyMatches_single.
    + change (join " " (k :: k2 :: ks))
        with ("" ++ k ++ String " " (join " " (k2 :: ks)))%string.
      apply km_next.
      * intros b1 b2 E N. symmetry in E. apply app_eq_empty in E. tauto.
      * now apply isIssueKey_keyPrefix.
      * apply keyMatches_skip; [reflexivity | exact IH].
Qed.

Lemma dedupFrom_nodup (l : list mention) :
  forall seen,
    NoDup (map key l) -> (forall k, In k (map key l) -> ~ In k seen) ->
    dedupFrom seen l = l.
Proof.
  induction l as [|a l IH]; intros seen Hnd Hout; simpl; [reflexivity|].
  inversion Hnd as [|x xs Hnotin Hnd']. subst.
  destruct (existsb (String.eqb (key a)) seen) eqn:E.
  - apply existsb_eqb_In in E. exfalso. apply (Hout (key a)); [now left | exact E].
  - f_equal. apply IH; [exact Hnd'|].
    intros k Hk Hin. apply in_app_or in Hin. destruct Hin as [Hin|[<-|[]]].
    + apply (Hout k); [now right | exact Hin].
    + contradiction.
Qed.

(** X4: issue keys written one after the other, separated by single
    spaces, are read back exactly: the scan returns them in order, and a
    text node holding pairwise distinct keys yields one mention per key. *)
Theorem keys_roundtrip (ks : list string) (src : mentionSource) (cid : option string) :
  Forall (fun k => isIssueKey k = true) ks ->
  matchKeys (join " " ks) = ks
  /\ (NoDup ks ->
      extractIssueMentions [textNode (join " " ks)] src cid
      = map (mkTextMention src cid) ks).
Proof.
  intros Hks.
  pose proof (keyMatches_matchKeys (keyMatches_join Hks)) as Hm.
  split; [exact Hm|]. intros Hnd.
  rewrite extractIssueMentions_dedup. cbn [flat_map]. rewrite app_nil_r.
  assert (traversalMentions src cid (textNode (join " " ks))
          = ownMentions src cid (textNode (join " " ks))) as ->
      by (unfold textNode; cbn [traversalMentions ncontent]; apply app_nil_r).
  rewrite (ownMentions_text src cid (textNode (join " " ks)) eq_refl eq_refl), Hm.
  apply dedupFrom_nodup.
  - rewrite map_map. simpl. now rewrite map_id.
  - intros k _ [].
Qed.

Lemma keys_roundtrip_witness :
  matchKeys (join " " ["PROJ-10"; "AB-7"; "X-0"]) = ["PROJ-10"; "AB-7"; "X-0"]
  /\ extractIssueMentions [textNode (join " " ["PROJ-10"; "AB-7"; "X-0"])]
                          Description None
     = map (mkTextMention Description None) ["PROJ-10"; "AB-7"; "X-0"].
Proof.
  destruct (@keys_roundtrip ["PROJ-10"; "AB-7"; "X-0"] Description None) as [H1 H2].
  - repeat constructor.
  - split; [exact H1 | apply H2].
    repeat constructor; simpl; intuition discriminate.
Defined.

Lemma allChars_app (p : ascii -> bool) (a b : string) :
  allChars p (a ++ b) = allChars p a && allChars p b.
Proof.
  induction a as [|c a IH]; simpl; [reflexivity|].
  now rewrite IH, andb_assoc.
Qed.

Lemma keyPrefix_needs_upper (s : string) : noUpper s = true -> keyPrefix s = None.
Proof.
  unfold noUpper, keyPrefix. destruct s as [|c s]; [reflexivity|].
  simpl. intros H. apply andb_prop in H. destruct H as [Hc _].
  apply negb_true_iff in Hc. now rewrite Hc.
Qed.

(** X5: the key pattern is case-sensitive: a text without any upper-case
    letter has no match, so a "text" node holding it contributes no
    mention. *)
Theorem no_upper_case_no_mention
        (t : string) (src : mentionSource) (cid : option string) (n : node) :
  noUpper t = true -> ntype n = "text" -> ntext n = Some t ->
  matchKeys t = [] /\ ownMentions src cid n = [].
Proof.
  intros Hu Ht Hx.
  assert (matchKeys t = []) as Hm.
  { apply keyMatches_matchKeys. apply km_none. intros pre post E.
    apply keyPrefix_needs_upper. unfold noUpper in *.
    rewrite E, allChars_app in Hu. now apply andb_prop in Hu. }
  split; [exact Hm|]. now rewrite (ownMentions_text src cid n Ht Hx), Hm.
Qed.

Lemma no_upper_case_no_mention_witness :
  matchKeys "see proj-12 and abc-3" = []
  /\ ownMentions Description None (textNode "see proj-12 and abc-3") = [].
Proof.
  apply (@no_upper_case_no_mention "see proj-12 and abc-3" Description None
           (textNode "see proj-12 and abc-3")); reflexivity.
Defined.

(** ** Issue Normalizer: failures and the kinds of related issues *)

Lemma linkMention_cases (l : rawLink) :
  if hasSide l
  then exists m, linkMention l = Ok m
                 /\ type m = TLink /\ source m = Description /\ commentId m = None
  else linkMention l = Throw (typeError "key").
Proof.
  unfold hasSide, linkMention.
  destruct (inwardIssue l) as [i|]; [|destruct (outwardIssue l) as [o|]];
    try reflexivity; eexists; repeat split.
Qed.

Lemma mapM_linkMention (links : list rawLink) :
  if forallb hasSide links
  then exists ms, mapM linkMention links = Ok ms
                  /\ Forall (fun m => type m = TLink /\ source m = Description
                                      /\ commentId m = None) ms
  else mapM linkMention links = Throw (typeError "key").
Proof.
  induction links as [|l links IH]; cbn [forallb mapM].
  - exists []. split; [reflexivity | constructor].
  - pose proof (linkMention_cases l) as Hl.
    destruct (hasSide l); cbn [andb].
    + destruct Hl as [m [-> Hm]]. cbn [bind].
      destruct (forallb hasSide links).
      * destruct IH as [ms [-> Hms]]. cbn [bind]. eexists. split; [reflexivity|].
        now constructor.
      * now rewrite IH.
    + now rewrite Hl.
Qed.



Lemma cleanIssue_comments (issue : rawIssue) (i : CleanJiraIssue) :
  cleanIssue issue = Ok i -> comments i = None.
Proof.
  unfold cleanIssue.
  destruct (match opt_bind (i_fields issue) f_issuelinks with
            | Some (_ :: _ as issuelinks) => _
            | _ => _
            end) as [r|err]; cbn [bind]; [|discriminate].
  now intros [= <-].
Qed.

Lemma flat_map_mentions (cs : list rawComment) :
  flat_map mentions (map cleanComment cs)
  = flat_map (fun c => mentions (cleanComment c)) cs.
Proof. induction cs as [|c cs IH]; simpl; [reflexivity | now rewrite IH]. Qed.

(** What a successful [getIssueWithComments] returns, whatever happens to
    the epic request. *)
Lemma getIssueWithComments_success
      (w : tracker) (issueId : string) (issueData : rawIssue)
      (commentsData : rawComments) (cs : list rawComment) (links : list mention) :
  fetchJson (issueReply w issueId) = Ok issueData ->
  fetchJson (commentsReply w issueId) = Ok commentsData ->
  comments_of commentsData = Some cs ->
  mapM linkMention (issuelinksOf issueData) = Ok links ->
  exists issue,
    getIssueWithComments w issueId = Ok issue
    /\ relatedIssues issue
       = descriptionMentions issueData ++ links
         ++ flat_map (fun c => mentions (cleanComment c)) cs
    /\ comments issue = Some (map cleanComment cs).
Proof.
  intros Hi Hc Hcs Hl.
  unfold getIssueWithComments. rewrite Hi, Hc. cbn [promiseAll].
  pose proof (cleanIssue_related issueData) as Hr. rewrite Hl in Hr.
  destruct (cleanIssue issueData) as [i|e]; [|contradiction].
  rewrite Hcs. cbn [bind].
  destruct (epicLink (set_comments _ _)) as [epic|];
    [destruct (fetchJson (epicReply w (ref_key epic)))|];
    eexists; (split; [reflexivity|]);
    cbn [relatedIssues comments set_epicSummary set_comments set_relatedIssues];
    (split; [now rewrite Hr, flat_map_mentions, app_assoc | reflexivity]).
Qed.

Lemma descriptionMentions_wellformed (issue : rawIssue) (m : mention) :
  In m (descriptionMentions issue) ->
  type m = TMention /\ source m = Description /\ commentId m = None.
Proof.
  unfold descriptionMentions.
  destruct (opt_bind (opt_bind (i_fields issue) f_description) d_content) as [c|];
    [|contradiction].
  intros H. apply extractIssueMentions_In in H. destruct H as [-> _].
  repeat split.
Qed.

Lemma cleanComment_mentions (c : rawComment) (m : mention) :
  In m (mentions (cleanComment c)) ->
  type m = TMention /\ source m = Comment /\ commentId m = Some (c_id c).
Proof.
  unfold cleanComment. cbn [mentions].
  destruct (opt_bind (c_body c) d_content) as [d|]; [|contradiction].
  intros H. apply extractIssueMentions_In in H. destruct H as [-> _].
  repeat split.
Qed.





(** X8: every related issue with source "comment" carries the id of one
    of the fetched comments and is among that comment's own mentions;
    every other related issue carries no comment id. *)
Theorem comment_mentions_point_to_their_comment
        (w : tracker) (issueId : string) (issueData : rawIssue)
        (commentsData : rawComments) (cs : list rawComment)
        (issue : CleanJiraIssue) (m : mention) :
  fetchJson (issueReply w issueId) = Ok issueData ->
  fetchJson (commentsReply w issueId) = Ok commentsData ->
  comments_of commentsData = Some cs ->
  getIssueWithComments w issueId = Ok issue ->
  In m (relatedIssues issue) ->
  match source m with
  | Comment => exists c, In c cs /\ commentId m = Some (c_id c)
                          /\ In m (mentions (cleanComment c))
  | Description => commentId m = None
  end.
Proof.
  intros Hi Hc Hcs Hres Hin.
  pose proof (mapM_linkMention (issuelinksOf issueData)) as Hall.
  destruct (forallb hasSide (issuelinksOf issueData)).
  - destruct Hall as [links [Hl Hf]].
    destruct (getIssueWithComments_success w issueId Hi Hc Hcs Hl)
      as (issue' & Hres' & Hrel & _).
    rewrite Hres in Hres'. injection Hres' as <-. rewrite Hrel in Hin.
    apply in_app_or in Hin. destruct Hin as [Hin|Hin].
    + apply descriptionMentions_wellformed in Hin. now destruct Hin as (_ & -> & ->).
    + apply in_app_or in Hin. destruct Hin as [Hin|Hin].
      * rewrite Forall_forall in Hf. now destruct (Hf m Hin) as (_ & -> & ->).
      * apply in_flat_map in Hin. destruct Hin as [c [Hc' Hm]].
        pose proof (cleanComment_mentions c m Hm) as (_ & -> & Hid).
        exists c. repeat split; assumption.
  - exfalso. pose proof (cleanIssue_related issueData) as Hr. rewrite Hall in Hr.
    unfold getIssueWithComments in Hres. rewrite Hi, Hc in Hres.
    cbn [promiseAll] in Hres.
    destruct (cleanIssue issueData); [contradiction | discriminate].
Qed.

Lemma comment_mentions_point_to_their_comment_witness :
  exists c, In c [dupComment]
            /\ commentId (mkTextMention Comment (Some "501") "DUP-1") = Some (c_id c)
            /\ In (mkTextMention Comment (Some "501") "DUP-1")
                  (mentions (cleanComment c)).
Proof.
  apply (@comment_mentions_point_to_their_comment dupTracker "PROJ-1" dupIssue
           (mkRawComments (Some [dupComment])) [dupComment]
           (mkCleanJiraIssue "10001" "PROJ-1" None None None None "duplicates DUP-1"
              [mkTextMention Description None "DUP-1";
               mkTextMention Comment (Some "501") "DUP-1"]
              None None None (Some [cleanComment dupComment]))
           (mkTextMention Comment (Some "501") "DUP-1"));
    try reflexivity.
  simpl. right. left. reflexivity.
Defined.

(** ** [searchIssues] *)

Lemma mapM_Forall2 {A B : Type} (f : A -> outcome B) (l : list A) :
  forall bs, mapM f l = Ok bs <-> Forall2 (fun a b => f a = Ok b) l bs.
Proof.
  induction l as [|a l IH]; intros bs; cbn [mapM].
  - split; [intros [= <-]; constructor | intros H; now inversion H].
  - split.
    + destruct (f a) as [b|e] eqn:Ea; cbn [bind]; [|discriminate].
      destruct (mapM f l) as [bs'|e]; cbn [bind]; [|discriminate].
      intros [= <-]. constructor; [exact Ea | now apply IH].
    + intros H. inversion H as [|a' b l' bs' Hb Hrest]. subst.
      rewrite Hb. cbn [bind]. apply IH in Hrest. now rewrite Hrest.
Qed.


(** X9: a successful search returns one normalized issue per issue of the
    page, in the order of the page, passes [total] through as it is, and
    never carries comments or an epic summary. *)
Theorem searchIssues_success
        (search : searchService) (searchString : string)
        (res : SearchIssuesResponse) :
  searchIssues search searchString = Ok res ->
  exists data raw,
    fetchJson (search searchString 50%N) = Ok data
    /\ sd_issues data = Some raw
    /\ total res = sd_total data
    /\ Forall2 (fun r i => cleanIssue r = Ok i) raw (issues res)
    /\ Forall (fun i => comments i = None
                        /\ forall e, epicLink i = Some e -> ref_summary e = None)
              (issues res).
Proof.
  unfold searchIssues.
  destruct (fetchJson (search searchString 50%N)) as [data|e]; cbn [bind]; [|discriminate].
  destruct (sd_issues data) as [raw|] eqn:Hraw; [|discriminate].
  destruct (mapM cleanIssue raw) as [cleaned|e] eqn:Hm; cbn [bind]; [|discriminate].
  intros [= <-]. exists data, raw. cbn [total issues].
  apply mapM_Forall2 in Hm. repeat split; try assumption; try reflexivity.
  clear Hraw. induction Hm as [|r i raw cleaned Hri _ IH]; constructor; [|exact IH].
  split; [exact (cleanIssue_comments r Hri)|].
  intros e He. exact (cleanIssue_epicLink r Hri He).
Qed.

Lemma searchIssues_success_witness :
  exists data raw,
    fetchJson (sampleSearch "project = PROJ" 50%N) = Ok data
    /\ sd_issues data = Some raw
    /\ total sampleSearchResult = sd_total data
    /\ Forall2 (fun r i => cleanIssue r = Ok i) raw (issues sampleSearchResult)
    /\ Forall (fun i => comments i = None
                        /\ forall e, epicLink i = Some e -> ref_summary e = None)
              (issues sampleSearchResult).
Proof.
  apply (@searchIssues_success sampleSearch "project = PROJ" sampleSearchResult).
  reflexivity.
Defined.



(** ** [getEpicChildren] *)

Lemma earliestRejection_none {A : Type} (settleTime : nat -> nat)
      (l : list (outcome A)) (vs : list A) :
  Forall2 (fun o v => o = Ok v) l vs ->
  forall i best,
    earliestRejection settleTime i l best = option_map snd best
    /\ fulfilled l = vs.
Proof.
  induction 1 as [|o v l vs Ho _ IH]; intros i best; cbn [earliestRejection].
  - split; reflexivity.
  - subst o. destruct (IH (S i) best) as [-> Hf]. split; [reflexivity|].
    unfold fulfilled in *. simpl. now rewrite Hf.
Qed.

Lemma earliestRejection_some {A : Type} (settleTime : nat -> nat)
      (l : list (outcome A)) :
  forall i best,
    (best <> None \/ exists e, In (Throw e) l) ->
    exists e', earliestRejection settleTime i l best = Some e'
               /\ ((exists t, best = Some (t, e')) \/ In (Throw e') l).
Proof.
  induction l as [|o l IH]; intros i best H; cbn [earliestRejection].
  - destruct H as [H|[e []]]. destruct best as [[t e]|]; [|contradiction].
    exists e. split; [reflexivity | left; now exists t].
  - destruct o as [a|e].
    + destruct (IH (S i) best) as [e' [He' Hwhere]].
      { destruct H as [H|[e [Hin|Hin]]]; [now left | discriminate | right; now exists e]. }
      exists e'. split; [exact He'|]. destruct Hwhere; [now left | right; now right].
    + match goal with
      | |- context [earliestRejection _ _ _ ?b] =>
          destruct (IH (S i) b) as [e' [He' Hwhere]]
      end.
      { left. destruct best as [[t e0]|]; [destruct (settleTime i <? t)%nat|]; discriminate. }
      exists e'. split; [exact He'|].
      destruct Hwhere as [[t Hb]|Hin]; [|right; now right].
      destruct best as [[t0 e0]|].
      * destruct (settleTime i <? t0)%nat; injection Hb as _ <-.
        -- right. now left.
        -- left. now exists t0.
      * injection Hb as _ <-. right. now left.
Qed.

(** X11: when every child is fetched and normalized, [getEpicChildren]
    returns the children in the order of the search page, whatever the
    order in which their comment requests complete. *)
Theorem getEpicChildren_keeps_page_order
        (search : searchService) (commentsOf : string -> fetchReply rawComments)
        (settleTime : nat -> nat) (epicKey : string)
        (data : searchData) (raw : list rawIssue) (children : list CleanJiraIssue) :
  fetchJson (search (epicJql epicKey) 100%N) = Ok data ->
  sd_issues data = Some raw ->
  Forall2 (fun r c => childWithComments commentsOf r = Ok c) raw children ->
  getEpicChildren search commentsOf settleTime epicKey = Ok children.
Proof.
  intros Hd Hraw Hall. unfold getEpicChildren. rewrite Hd. cbn [bind]. rewrite Hraw.
  unfold promiseAllList.
  assert (Forall2 (fun o v => o = Ok v)
                  (map (childWithComments commentsOf) raw) children) as H2.
  { clear Hraw. induction Hall; simpl; constructor; assumption. }
  destruct (earliestRejection_none settleTime H2 0 None) as [-> ->]. reflexivity.
Qed.

Lemma getEpicChildren_keeps_page_order_witness :
  getEpicChildren sampleSearch commentsOfSample (fun i => 10 - i) "PROJ-100"
  = Ok sampleChildren.
Proof.
  apply (@getEpicChildren_keeps_page_order sampleSearch commentsOfSample
           (fun i => 10 - i) "PROJ-100" samplePage [dupIssue; epicIssue]
           sampleChildren eq_refl eq_refl).
  repeat constructor.
Defined.

(** X12: [getEpicChildren] is all or nothing: when the comments request or
    the normalization of any child fails, the call fails with the error of
    one of the failing children. *)
Theorem getEpicChildren_fails_fast
        (search : searchService) (commentsOf : string -> fetchReply rawComments)
        (settleTime : nat -> nat) (epicKey : string)
        (data : searchData) (raw : list rawIssue) (r : rawIssue) (e : error) :
  fetchJson (search (epicJql epicKey) 100%N) = Ok data ->
  sd_issues data = Some raw ->
  In r raw -> childWithComments commentsOf r = Throw e ->
  exists r' e',
    In r' raw /\ childWithComments commentsOf r' = Throw e'
    /\ getEpicChildren search commentsOf settleTime epicKey = Throw e'.
Proof.
  intros Hd Hraw Hin He. unfold getEpicChildren. rewrite Hd. cbn [bind]. rewrite Hraw.
  unfold promiseAllList.
  destruct (@earliestRejection_some _ settleTime
              (map (childWithComments commentsOf) raw) 0 None)
    as [e' [-> Hwhere]].
  { right. exists e. rewrite <- He. now apply in_map. }
  destruct Hwhere as [[t Hb]|Hin']; [discriminate|].
  apply in_map_iff in Hin'. destruct Hin' as [r' [Hr' Hin']].
  exists r', e'. repeat split; assumption.
Qed.

Lemma getEpicChildren_fails_fast_witness :
  exists r' e',
    In r' [dupIssue; epicIssue]
    /\ childWithComments (fun k => if k =? "PROJ-2" then failedReply 429 "Too Many Requests"
                                   else commentsOfSample k) r' = Throw e'
    /\ getEpicChildren sampleSearch
                       (fun k => if k =? "PROJ-2" then failedReply 429 "Too Many Requests"
                                 else commentsOfSample k)
                       (fun i => i) "PROJ-100" = Throw e'.
Proof.
  apply (@getEpicChildren_fails_fast sampleSearch _ (fun i => i) "PROJ-100"
           samplePage [dupIssue; epicIssue] epicIssue
           (mkError "JIRA API Error: Too Many Requests (Status: 429)")
           eq_refl eq_refl).
  - right. left. reflexivity.
  - reflexivity.
Defined.

(** X13: a child listed by [getEpicChildren] carries the same related
    issues and comments as [getIssueWithComments] returns for it, and is
    the very same record when it has no epic link. *)
Theorem child_agrees_with_getIssueWithComments
        (w : tracker) (issueData : rawIssue) (child : CleanJiraIssue) :
  fetchJson (issueReply w (i_key issueData)) = Ok issueData ->
  childWithComments (commentsReply w) issueData = Ok child ->
  exists issue,
    getIssueWithComments w (i_key issueData) = Ok issue
    /\ relatedIssues issue = relatedIssues child
    /\ comments issue = comments child
    /\ (epicLink child = None -> issue = child).
Proof.
  intros Hi. unfold childWithComments, getIssueWithComments. rewrite Hi.
  destruct (fetchJson (commentsReply w (i_key issueData))) as [cd|e];
    cbn [bind promiseAll]; [|discriminate].
  destruct (cleanIssue issueData) as [ci|e]; cbn [bind]; [|discriminate].
  destruct (comments_of cd) as [cs|]; cbn [bind]; [|discriminate].
  intros [= <-].
  destruct (epicLink (set_comments _ _)) as [epic|] eqn:He.
  - destruct (fetchJson (epicReply w (ref_key epic))); eexists;
      (split; [reflexivity|]); repeat split; discriminate.
  - eexists. split; [reflexivity|]. repeat split.
Qed.

Lemma child_agrees_with_getIssueWithComments_witness :
  exists issue,
    getIssueWithComments dupTracker (i_key dupIssue) = Ok issue
    /\ relatedIssues issue = relatedIssues dupChild
    /\ comments issue = comments dupChild
    /\ (epicLink dupChild = None -> issue = dupChild).
Proof.
  apply (@child_agrees_with_getIssueWithComments dupTracker dupIssue dupChild);
    reflexivity.
Defined.

(** ** [createIssue]: who wins a property *)

Lemma getProp_app {V : Type} (k : string) (a b : list (string * V)) :
  getProp k (a ++ b)
  = match getProp k a with
    | Some v => Some v
    | None => getProp k b
    end.
Proof.
  induction a as [|[k' v'] a IH]; simpl; [reflexivity|].
  now destruct (k' =? k).
Qed.

Lemma getProp_set {V : Type} (k k' : string) (v : V) (m : list (string * V)) :
  getProp k' (JsMap.set k v m) = if k =? k' then Some v else getProp k' m.
Proof.
  induction m as [|[k0 v0] m IH]; simpl.
  - reflexivity.
  - destruct (String.eqb_spec k0 k) as [->|N]; simpl.
    + now destruct (k =? k').
    + destruct (String.eqb_spec k0 k') as [->|N'].
      * apply String.eqb_neq in N. rewrite String.eqb_sym in N. now rewrite N.
      * exact IH.
Qed.

Lemma getProp_ofEntries {V : Type} (k : string) (es : list (string * V)) :
  forall m,
    getProp k (fold_left (fun m kv => JsMap.set (fst kv) (snd kv) m) es m)
    = match getProp k (rev es) with
      | Some v => Some v
      | None => getProp k m
      end.
Proof.
  induction es as [|[k0 v0] es IH]; intros m; simpl; [reflexivity|].
  rewrite IH, getProp_app, getProp_set. simpl.
  destruct (getProp k (rev es)); [reflexivity|]. now destruct (k0 =? k).
Qed.

Lemma getProp_In {V : Type} (k : string) (v : V) (l : list (string * V)) :
  getProp k l = Some v -> In k (map fst l).
Proof.
  induction l as [|[k0 v0] l IH]; simpl; [discriminate|].
  destruct (String.eqb_spec k0 k); [now left | right; now apply IH].
Qed.

Lemma getProp_rev {V : Type} (k : string) (l : list (string * V)) :
  NoDup (map fst l) -> getProp k (rev l) = getProp k l.
Proof.
  induction l as [|[k0 v0] l IH]; simpl; intros Hnd; [reflexivity|].
  inversion Hnd as [|x xs Hnotin Hnd']. subst.
  rewrite getProp_app, (IH Hnd'). simpl.
  destruct (getProp k l) as [v|] eqn:E.
  - destruct (String.eqb_spec k0 k) as [->|]; [|reflexivity].
    exfalso. apply Hnotin. exact (getProp_In _ _ E).
  - now destruct (k0 =? k).
Qed.

(** X14: in the payload of [createIssue] the caller's [fields] take
    precedence: a property present in [fields] has the caller's value,
    also when it is [project], [summary], [issuetype] or [description];
    any other property is the built-in one, [description] being left out
    when it is empty or absent. *)
Theorem createIssue_caller_fields_win
        (projectKey issueType summary : string) (description : option string)
        (fields : list (string * jsonValue)) (k : string) :
  NoDup (map fst fields) ->
  getProp k (createIssueFields projectKey issueType summary description fields)
  = match getProp k fields with
    | Some v => Some v
    | None => getProp k (builtinFields projectKey issueType summary description)
    end.
Proof.
  intros Hnd. unfold createIssueFields, JsMap.ofEntries.
  rewrite getProp_ofEntries. cbn [getProp].
  change ([("project", JObj [("key", JStr projectKey)]); ("summary", JStr summary);
           ("issuetype", JObj [("name", JStr issueType)])]
            ++ (if truthy_opt description
                then [("description", JStr (or_empty description))] else [])
            ++ fields)
    with (([("project", JObj [("key", JStr projectKey)]); ("summary", JStr summary);
            ("issuetype", JObj [("name", JStr issueType)])]
             ++ (if truthy_opt description
                 then [("description", JStr (or_empty description))] else []))
            ++ fields).
  fold (builtinFields projectKey issueType summary description).
  rewrite rev_app_distr, getProp_app, (@getProp_rev _ k fields Hnd).
  destruct (getProp k fields); [reflexivity|].
  rewrite getProp_rev; [now destruct (getProp k (builtinFields _ _ _ _))|].
  unfold builtinFields. destruct (truthy_opt description); simpl;
    repeat constructor; simpl; intuition discriminate.
Qed.

Lemma createIssue_caller_fields_win_witness :
  getProp "summary"
          (createIssueFields "PROJ" "Task" "from the argument" (Some "")
                             [("labels", JArr [JStr "x"]);
                              ("summary", JStr "from the fields")])
  = match getProp "summary" [("labels", JArr [JStr "x"]);
                             ("summary", JStr "from the fields")] with
    | Some v => Some v
    | None => getProp "summary" (builtinFields "PROJ" "Task" "from the argument" (Some ""))
    end.
Proof.
  apply createIssue_caller_fields_win.
  repeat constructor; simpl; intuition discriminate.
Defined.

(** ** Writes that are answered without a body *)



(** ** [addCommentToIssue] *)

(** X16: when the tracker answers with the comment as stored, holding the
    document that was posted, [addCommentToIssue] returns the very text it
    was given as [body]; a reply without [author] makes it throw. *)
Theorem addCommentToIssue_echo
        (net : request -> fetchReply rawComment) (issueIdOrKey text : string)
        (reply : rawComment) :
  net (mkRequest ("/rest/api/3/issue/" ++ issueIdOrKey ++ "/comment") "POST"
                 (CommentPayload (createAdfFromBody text)))
  = okReply reply ->
  c_body reply = Some (mkRawDoc (Some (content (createAdfFromBody text)))) ->
  match c_author reply with
  | Some author =>
      addCommentToIssue net issueIdOrKey text
      = Ok (mkAddCommentResponse (c_id reply) (displayName author)
              (c_created reply) (c_updated reply) text)
  | None => addCommentToIssue net issueIdOrKey text = Throw (typeError "displayName")
  end.
Proof.
  intros Hnet Hbody. unfold addCommentToIssue. rewrite Hnet.
  cbn [okReply fetchJson ok json negb bind].
  destruct (c_author reply) as [a|]; [|reflexivity].
  rewrite Hbody. reflexivity.
Qed.

Lemma addCommentToIssue_echo_witness :
  addCommentToIssue echoNet "PROJ-1" "Looks good, see PROJ-2"
  = Ok (mkAddCommentResponse "777" (Some "Ada") "2024-05-01" "2024-05-01"
          "Looks good, see PROJ-2").
Proof.
  apply (@addCommentToIssue_echo echoNet "PROJ-1" "Looks good, see PROJ-2"
           (mkRawComment "777"
              (Some (mkRawDoc (Some (content (createAdfFromBody "Looks good, see PROJ-2")))))
              (Some (mkRawAuthor (Some "Ada"))) "2024-05-01" "2024-05-01"));
    reflexivity.
Defined.

(** ** [JiraServerApiService]: the path rewriting *)

Lemma dropChars_app (a b : string) : dropChars (String.length a) (a ++ b) = b.
Proof. induction a as [|c a IH]; simpl; [now destruct b | exact IH]. Qed.

Lemma replaceFirst_unfold (pattern replacement s : string) :
  replaceFirst pattern replacement s
  = if prefix pattern s
    then (replacement ++ dropChars (String.length pattern) s)%string
    else match s with
         | EmptyString => EmptyString
         | String c s' => String c (replaceFirst pattern replacement s')
         end.
Proof. now destruct s. Qed.

Lemma prefix_split (a : string) :
  forall b, prefix a b = true -> b = (a ++ dropChars (String.length a) b)%string.
Proof.
  induction a as [|x a IH]; intros b H; simpl.
  - now destruct b.
  - destruct b as [|y b]; simpl in H; [discriminate|].
    destruct (ascii_dec x y) as [->|]; [|discriminate].
    f_equal. now apply IH.
Qed.

(** X17: every path under [/rest/api/3/] is rewritten to the same path
    under [/rest/api/2/], what follows the prefix being left as it is, and
    the server variant sends its request there. *)
Theorem overrideApiPath_prefix
        (T : Type) (net : request -> fetchReply T) (rest m : string) (b : payload) :
  overrideApiPath ("/rest/api/3/" ++ rest) = ("/rest/api/2/" ++ rest)%string
  /\ serverFetchJson net (mkRequest ("/rest/api/3/" ++ rest) m b)
     = fetchJson (net (mkRequest ("/rest/api/2/" ++ rest) m b)).
Proof.
  assert (overrideApiPath ("/rest/api/3/" ++ rest) = ("/rest/api/2/" ++ rest)%string) as E.
  { unfold overrideApiPath. rewrite replaceFirst_unfold, prefix_app.
    now rewrite dropChars_app. }
  split; [exact E|]. unfold serverFetchJson. cbn [path method body]. now rewrite E.
Qed.

(** X18: a path that does not contain [/rest/api/3/] is left unchanged,
    and rewriting never changes the length of a path. *)
Theorem overrideApiPath_other_paths (p : string) :
  (includes p "/rest/api/3/" = false -> overrideApiPath p = p)
  /\ String.length (overrideApiPath p) = String.length p.
Proof.
  unfold overrideApiPath. split.
  - induction p as [|c p IH]; intros H; [reflexivity|].
    rewrite includes_unfold in H. rewrite replaceFirst_unfold.
    destruct (prefix "/rest/api/3/" (String c p)); [discriminate|].
    f_equal. now apply IH.
  - induction p as [|c p IH]; [reflexivity|].
    rewrite replaceFirst_unfold.
    destruct (prefix "/rest/api/3/" (String c p)) eqn:E.
    + apply prefix_split in E. rewrite E at 2. now rewrite !length_append.
    + simpl. now rewrite IH.
Qed.

Lemma overrideApiPath_other_paths_witness :
  overrideApiPath "/rest/agile/1.0/board" = "/rest/agile/1.0/board"
  /\ String.length (overrideApiPath "/rest/agile/1.0/board")
     = String.length "/rest/agile/1.0/board".
Proof.
  split.
  - apply (proj1 (overrideApiPath_other_paths "/rest/agile/1.0/board")). reflexivity.
  - apply (proj2 (overrideApiPath_other_paths "/rest/agile/1.0/board")).
Defined.

(** ** When a failure is reported as "Issue not found" *)

Lemma string_of_N_inj (n m : N) : string_of_N n = string_of_N m -> n = m.
Proof.
  unfold string_of_N. intros H.
  assert (forall k, NilZero.uint_of_string (NilZero.string_of_uint (N.to_uint k))
                    = Some (N.to_uint k)) as Hk.
  { intros k. apply NilZero.usu. destruct k as [|p]; [discriminate|].
    apply DecimalPos.Unsigned.to_uint_nonnil. }
  apply DecimalN.Unsigned.to_uint_inj.
  pose proof (Hk n) as Hn. rewrite H, Hk in Hn. congruence.
Qed.

Lemma string_of_uint_digits (d : Decimal.uint) :
  allChars isDigit (NilEmpty.string_of_uint d) = true.
Proof. induction d; simpl; try reflexivity; exact IHd. Qed.

Lemma string_of_N_digits (n : N) : allChars isDigit (string_of_N n) = true.
Proof.
  unfold string_of_N, NilZero.string_of_uint.
  destruct (N.to_uint n) eqn:E; try reflexivity;
    rewrite <- E; rewrite E; apply (string_of_uint_digits (_ _)).
Qed.

Lemma includes_cons_false (c : ascii) (s needle : string) :
  includes (String c s) needle = false ->
  prefix needle (String c s) = false /\ includes s needle = false.
Proof.
  rewrite includes_unfold. destruct (prefix needle (String c s)); [discriminate | auto].
Qed.

(** A match of [m] at the start of [a ++ b] lies within [a] or runs over
    its end. *)
Lemma prefix_app_cases (m : string) :
  forall a b, prefix m (a ++ b) = true ->
              prefix m a = true
              \/ exists m2, m = (a ++ m2)%string /\ prefix m2 b = true.
Proof.
  induction m as [|x m IH]; intros a b H.
  - left. now destruct a.
  - destruct a as [|c a].
    + right. exists (String x m). split; [reflexivity | exact H].
    + simpl in H |- *. destruct (ascii_dec x c) as [->|]; [|discriminate].
      destruct (IH a b H) as [Hl|[m2 [-> Hm2]]]; [now left | right].
      exists m2. split; [reflexivity | exact Hm2].
Qed.

Lemma prefix_cons (x : ascii) (m s : string) :
  prefix (String x m) (String x s) = prefix m s.
Proof. simpl. destruct (ascii_dec x x); [reflexivity | contradiction]. Qed.

Lemma prefix_refl (s : string) : prefix s s = true.
Proof. rewrite <- (append_nil_r s) at 2. apply prefix_app. Qed.

(** The marker has one space, before [404)]. *)
Lemma marker_split (a m2 : string) :
  "(Status: 404)" = (a ++ String " " m2)%string -> m2 = "404)".
Proof.
  intros E.
  do 14 (try (destruct a as [|? a]; cbn [append] in E;
              [try discriminate E; try (injection E as <-; reflexivity)
              |first [discriminate E | injection E as _ E]])).
Qed.

(** No match of the marker starts in a text and ends in the status
    suffix. *)
Lemma no_straddle (a x : string) :
  a <> "" -> prefix "(Status: 404)" a = false ->
  prefix "(Status: 404)" (a ++ String " " (String "(" x)) = false.
Proof.
  intros Na Hp.
  destruct (prefix "(Status: 404)" (a ++ String " " (String "(" x))) eqn:E;
    [|reflexivity].
  apply prefix_app_cases in E. destruct E as [E|[m2 [Em Hm2]]]; [congruence|].
  destruct m2 as [|y m2].
  - rewrite append_nil_r in Em. subst a. now rewrite prefix_refl in Hp.
  - cbn [prefix] in Hm2. destruct (ascii_dec y " ") as [->|]; [|discriminate].
    pose proof (marker_split _ _ Em) as ->. discriminate Hm2.
Qed.

Lemma includes_digits (d : string) :
  allChars isDigit d = true -> includes (d ++ ")") "(Status: 404)" = false.
Proof.
  induction d as [|c d IH]; [reflexivity|]. simpl allChars. intros H.
  apply andb_prop in H. destruct H as [Hc Hd].
  cbn [append]. rewrite includes_unfold. cbn [prefix].
  destruct (ascii_dec "(" c) as [<-|]; [discriminate Hc | now apply IH].
Qed.

Lemma status_suffix_404 (d : string) :
  allChars isDigit d = true ->
  includes (" (Status: " ++ d ++ ")") "(Status: 404)" = true -> d = "404".
Proof.
  intros Hd H. cbn [append] in H.
  rewrite includes_unfold in H. cbn [prefix] in H.
  destruct (ascii_dec "(" " ") as [|_]; [discriminate|].
  rewrite includes_unfold in H.
  destruct (prefix "(Status: 404)" (String "(" (String "S" (String "t" (String "a"
             (String "t" (String "u" (String "s" (String ":" (String " " (d ++ ")"))))))))))) eqn:Ep.
  - clear H. rewrite !prefix_cons in Ep.
    destruct d as [|c1 [|c2 [|c3 [|c4 d]]]]; cbn [append prefix] in Ep;
      repeat match type of Ep with
             | context [ascii_dec ?a ?b] =>
                 destruct (ascii_dec a b); try discriminate Ep
             end; subst; try reflexivity.
    simpl in Hd. repeat (apply andb_prop in Hd; destruct Hd as [? Hd]). discriminate.
  - exfalso.
    do 8 (rewrite includes_unfold in H; cbn [prefix] in H;
          match type of H with
          | context [ascii_dec ?a ?b] => destruct (ascii_dec a b) as [|_]; [discriminate|]
          end).
    now rewrite (includes_digits d Hd) in H.
Qed.

Lemma includes_skip (c : ascii) (s : string) :
  c <> "("%char -> includes (String c s) "(Status: 404)" = includes s "(Status: 404)".
Proof.
  intros N. rewrite includes_unfold. cbn [prefix].
  destruct (ascii_dec "(" c) as [E|_]; [congruence | reflexivity].
Qed.

Lemma includes_before_status (a x : string) :
  includes a "(Status: 404)" = false ->
  includes (String " " (String "(" x)) "(Status: 404)" = false ->
  includes (a ++ String " " (String "(" x)) "(Status: 404)" = false.
Proof.
  intros Ha Hs. induction a as [|c a IH]; [exact Hs|].
  apply includes_cons_false in Ha. destruct Ha as [Hp Ha].
  cbn [append]. rewrite includes_unfold.
  change (String c (a ++ String " " (String "(" x)))
    with (String c a ++ String " " (String "(" x))%string.
  rewrite no_straddle by (discriminate || exact Hp).
  cbn [append]. now apply IH.
Qed.

Lemma handleFetchError_message {T : Type} (r : response T) :
  ok r = false ->
  message (handleFetchError r)
  = ("JIRA API Error"
       ++ (if truthy (upstreamMessage r) then ": " ++ upstreamMessage r else "")
       ++ " (Status: " ++ string_of_N (http_status r) ++ ")")%string.
Proof. intros Hok. unfold handleFetchError, upstreamMessage. now rewrite Hok. Qed.

(** Only a 404 puts the marker into the message, unless the tracker's own
    text contains it. *)
Lemma marker_means_404 {T : Type} (r : response T) :
  ok r = false ->
  includes (upstreamMessage r) "(Status: 404)" = false ->
  includes (message (handleFetchError r)) "(Status: 404)" = true ->
  http_status r = 404%N.
Proof.
  intros Hok Hum H. rewrite (handleFetchError_message r Hok) in H.
  cbn [append] in H.
  do 14 (rewrite includes_skip in H by discriminate).
  assert (includes (" (Status: " ++ string_of_N (http_status r) ++ ")")
                   "(Status: 404)" = true) as Hs.
  { destruct (includes (" (Status: " ++ string_of_N (http_status r) ++ ")")
                       "(Status: 404)") eqn:Es; [reflexivity|].
    destruct (truthy (upstreamMessage r)).
    - cbn [append] in H. do 2 (rewrite includes_skip in H by discriminate).
      cbn [append] in Es. rewrite (includes_before_status _ _ Hum Es) in H.
      discriminate.
    - cbn [append] in H, Es. congruence. }
  apply status_suffix_404 in Hs; [|apply string_of_N_digits].
  apply string_of_N_inj. exact Hs.
Qed.

(** X19: when the issue request fails and the comments are served, the
    failure is reported as "Issue not found: <id>" exactly when its status
    is 404, provided the tracker's own message does not itself contain
    "(Status: 404)"; with any other status the upstream error is thrown
    unchanged. *)
Theorem not_found_only_for_status_404
        (w : tracker) (issueId : string) (r : response rawIssue)
        (commentsData : rawComments) :
  issueReply w issueId = Responded r -> ok r = false ->
  includes (upstreamMessage r) "(Status: 404)" = false ->
  fetchJson (commentsReply w issueId) = Ok commentsData ->
  getIssueWithComments w issueId
  = if (http_status r =? 404)%N
    then Throw (mkError ("Issue not found: " ++ issueId))
    else Throw (handleFetchError r).
Proof.
  intros Hr Hok Hum Hc. unfold getIssueWithComments.
  rewrite Hr, Hc. cbn [fetchJson]. rewrite Hok. cbn [negb promiseAll].
  destruct (N.eqb_spec (http_status r) 404) as [E|N].
  - now rewrite (handleFetchError_404 r Hok E).
  - destruct (includes (message (handleFetchError r)) "(Status: 404)") eqn:Em;
      [|reflexivity].
    exfalso. apply N. exact (marker_means_404 r Hok Hum Em).
Qed.

Lemma not_found_only_for_status_404_witness :
  getIssueWithComments serverErrorTracker "PROJ-1"
  = Throw (mkError
             "JIRA API Error: Index unavailable; Try again (later) (Status: 500)").
Proof.
  apply (@not_found_only_for_status_404 serverErrorTracker "PROJ-1"
           serverErrorResponse (mkRawComments (Some [dupComment])));
    reflexivity.
Defined.

(** ** The two extractors on the same document *)

Lemma extractTextContent_outer (ns : list node) :
  extractTextContent (Some ns)
  = join "" (map (fun n => or_empty (ntext n)) (flat_map outerTextNodes ns)).
Proof.
  simpl. induction ns as [|n ns IH]; simpl.
  - reflexivity.
  - rewrite map_app, join_app, join_cons, IH. f_equal. apply textOfNode_outer.
Qed.

Lemma keyMatches_occurs (s : string) (ks : list string) :
  keyMatches s ks ->
  forall k, In k ks -> exists before after, s = (before ++ k ++ after)%string.
Proof.
  induction 1 as [|before k0 after ks _ _ _ IH]; intros k Hin; [contradiction|].
  destruct Hin as [<-|Hin].
  - now exists before, after.
  - destruct (IH k Hin) as (b & a & ->).
    exists (before ++ k0 ++ b)%string, a. now rewrite !append_assoc.
Qed.

(** X20: every key that the scan finds in a "text" node reached by the
    text extractor occurs in the extracted text: the mentions taken from
    the text of a description or comment can be located in its plain
    text. *)
Theorem text_mentions_occur_in_text (ns : list node) (n : node) (k : string) :
  In n (flat_map outerTextNodes ns) ->
  In k (matchKeys (or_empty (ntext n))) ->
  includes (extractTextContent (Some ns)) k = true.
Proof.
  intros Hn Hk. rewrite extractTextContent_outer.
  apply in_split in Hn. destruct Hn as (l1 & l2 & ->).
  rewrite map_app, join_app. cbn [map]. rewrite join_cons.
  destruct (keyMatches_occurs (matchKeys_keyMatches (or_empty (ntext n))) k Hk)
    as (b & a & ->).
  rewrite !append_assoc, <- (append_assoc _ b), <- append_assoc.
  rewrite append_assoc. apply includes_app.
Qed.

Lemma text_mentions_occur_in_text_witness :
  includes (extractTextContent
              (Some [paragraph [textNode "First PROJ-10, "; textNode "then AB-7."]]))
           "AB-7" = true.
Proof.
  apply (@text_mentions_occur_in_text
           [paragraph [textNode "First PROJ-10, "; textNode "then AB-7."]]
           (textNode "then AB-7.") "AB-7").
  - simpl. right. left. reflexivity.
  - simpl. left. reflexivity.
Defined.
